(** * The revel router: a shallow embedding of [router.go]

    The development follows the Go source function by function.  Strings are
    byte strings ([string] of [ascii]); Go maps are [gmap]s; a Go function
    that may crash with a runtime panic returns an [Outcome]; the log writers
    [ERROR], [WARN] and [INFO] are a writer effect carried next to the
    outcome. *)

From Stdlib Require Import ZArith Ascii String List DecimalString Lia.
From stdpp Require Import base option list strings gmap sorting.

Local Open Scope string_scope.
Local Open Scope list_scope.

(** ** Go strings *)

Module GoString.

(** [strings.HasPrefix(s, p)]. *)
Definition HasPrefix (s p : string) : bool := String.prefix p s.

(** The bytes of a string, last one first. *)
Fixpoint rev_string (acc s : string) : string :=
  match s with
  | EmptyString => acc
  | String c s' => rev_string (String c acc) s'
  end.

(** [strings.HasSuffix(s, p)]. *)
Definition HasSuffix (s p : string) : bool :=
  String.prefix (rev_string EmptyString p) (rev_string EmptyString s).

(** [s[0 : len(s)-1]] on a non-empty string: all bytes but the last. *)
Fixpoint dropLast (s : string) : string :=
  match s with
  | EmptyString => EmptyString
  | String c EmptyString => EmptyString
  | String c s' => String c (dropLast s')
  end.

(** [strings.Split(s, sep)] for a one-byte separator: the pieces between
    the separators, so a string with [n] separators gives [n+1] pieces and
    the empty string gives one empty piece. *)
Fixpoint Split (s : string) (sep : ascii) : list string :=
  match s with
  | EmptyString => [EmptyString]
  | String c s' =>
      if Ascii.eqb c sep then EmptyString :: Split s' sep
      else match Split s' sep with
           | [] => [String c EmptyString]
           | p :: ps => String c p :: ps
           end
  end.

(** [strings.Join(l, sep)]. *)
Definition Join (l : list string) (sep : string) : string := String.concat sep l.

(** The upper case of an ASCII letter (the bytes [a]..[z]); other bytes are
    kept. *)
Definition upper_ascii (c : ascii) : ascii :=
  let n := nat_of_ascii c in
  if (97 <=? n)%nat && (n <=? 122)%nat then ascii_of_nat (n - 32) else c.

(** The two bytes [c], [d] are the UTF-8 encoding of U+017F, the long s. *)
Definition isLongS (c d : ascii) : bool :=
  Ascii.eqb c (ascii_of_nat 197) && Ascii.eqb d (ascii_of_nat 191).

(** The two bytes [c], [d] are the UTF-8 encoding of U+0131, the dotless i. *)
Definition isDotlessI (c d : ascii) : bool :=
  Ascii.eqb c (ascii_of_nat 196) && Ascii.eqb d (ascii_of_nat 177).

(** [strings.ToUpper] on a UTF-8 string.  The ASCII letters are upper-cased
    byte by byte; the two runes outside ASCII whose upper case is an ASCII
    letter are the long s, which gives [S], and the dotless i, which gives
    [I].  The bytes of the other runes outside ASCII are kept as they are:
    no method that [routeMethodPattern] accepts holds one. *)
Fixpoint ToUpper (s : string) : string :=
  match s with
  | EmptyString => EmptyString
  | String c s' =>
      match s' with
      | String d s'' =>
          if isLongS c d then String "S" (ToUpper s'')
          else if isDotlessI c d then String "I" (ToUpper s'')
          else String (upper_ascii c) (ToUpper s')
      | EmptyString => String (upper_ascii c) (ToUpper s')
      end
  end.

(** [s[0] == c], [None] when the index is out of range. *)
Definition firstIs (s : string) (c : ascii) : option bool :=
  match s with
  | EmptyString => None
  | String c0 _ => Some (Ascii.eqb c0 c)
  end.

(** [s[1:]] (used only after [s[0]] was read). *)
Definition tail (s : string) : string :=
  match s with
  | EmptyString => EmptyString
  | String _ s' => s'
  end.

(** The one-byte string made of a double quote. *)
Definition dquote : string := String (ascii_of_nat 34) EmptyString.

(** [%d] of a non-negative [int]. *)
Definition itoa (n : nat) : string := NilZero.string_of_uint (Nat.to_uint n).

End GoString.

Import GoString.

(** ** Outcomes, panics and the log *)

(** The runtime panics the router can raise. *)
Inductive PanicKind :=
| IndexOutOfRange      (* s[0] on an empty string, l[0] on an empty slice *)
| TypeAssertion        (* x.(T) on a value that is not a T *)
| NilMapWrite          (* m[k] = v on a nil map *)
| SliceOutOfRange      (* s[17:] on a string shorter than 17 bytes *)
| TreePanic.           (* a panic raised inside the path tree *)

(** [OutOfFuel] is not a Go outcome: it marks a run of the model that needs
    more nested imports than the bound it was given. *)
Inductive Outcome (A : Type) :=
| Done (a : A)
| Panic (p : PanicKind)
| OutOfFuel.
Arguments Done {A} a.
Arguments Panic {A} p.
Arguments OutOfFuel {A}.

Inductive LogLevel := ERROR | WARN | INFO.

(** A logged line: its level and its text as [Print], [Println] or [Printf]
    make it of their operands, so [Println] ends it with a newline. *)
Definition LogLine : Type := LogLevel * string.

(** A computation: its outcome and the lines it logged, in order. *)
Definition M (A : Type) : Type := Outcome A * list LogLine.

Definition ret {A} (a : A) : M A := (Done a, []).

Definition bind {A B} (f : A -> M B) (m : M A) : M B :=
  match m with
  | (Done a, l) => let '(r, l') := f a in (r, l ++ l')
  | (Panic p, l) => (Panic p, l)
  | (OutOfFuel, l) => (OutOfFuel, l)
  end.

#[global] Instance M_ret : MRet M := @ret.
#[global] Instance M_bind : MBind M := @bind.

Definition panic {A} (p : PanicKind) : M A := (Panic p, []).

Definition logPrint (lvl : LogLevel) (msg : string) : M unit := (Done tt, [(lvl, msg)]).

(** [s[0] == c] as a computation: panics on the empty string. *)
Definition firstIsM (s : string) (c : ascii) : M bool :=
  match firstIs s c with
  | Some b => ret b
  | None => panic IndexOutOfRange
  end.

(** ** The data model *)

Record Route := mkRoute {
  Method : string;
  Path : string;
  Action : string;
  ControllerName : string;
  MethodName : string;
  FixedParams : list string;
  TreePath : string;
  routesPath : string;
  line : Z
}.

Record RouteMatch := mkRouteMatch {
  rmAction : string;
  rmControllerName : string;
  rmMethodName : string;
  rmFixedParams : list string;
  (* url.Values; the nil map reads like the empty one *)
  rmParams : gmap string (list string)
}.

(** [revel.Error], as [routeError] fills it. *)
Record Error := mkError {
  Title : string;
  Description : string;
  ErrPath : string;
  ErrLine : Z;
  SourceLines : list string
}.

(** A value of the Go interface [error]: a plain error with its message, or a
    [*revel.Error]. *)
Inductive GoError :=
| PlainError (msg : string)
| RevelError (e : Error).

Definition treePath (method path : string) : string :=
  let method := if String.eqb method "*" then ":METHOD" else method in
  "/" ++ method ++ path.

(** [NewRoute]: the record is filled first; a path without a leading slash is
    logged and the record returned as it is; otherwise a two-part action gives
    the controller and method names. *)
Definition NewRoute (method path action routesPath : string) (fixedArgs : list string)
  : M Route :=
  let r := {| Method := ToUpper method; Path := path; Action := action;
              ControllerName := ""; MethodName := "";
              FixedParams := fixedArgs;
              TreePath := treePath (ToUpper method) path;
              routesPath := routesPath; line := 0 |} in
  if negb (HasPrefix (Path r) "/") then
    logPrint ERROR "Absolute URL required.";; ret r
  else
    match Split action "." with
    | [c; m] =>
        ret {| Method := Method r; Path := Path r; Action := Action r;
               ControllerName := c; MethodName := m;
               FixedParams := FixedParams r; TreePath := TreePath r;
               routesPath := routesPath; line := line r |}
    | _ => ret r
    end.

(** ** The path tree

    [github.com/robfig/pathtree] is an imported package: the router is written
    against its interface, so the embedding is too.  [Add] updates the tree in
    place and returns an [error]; the comment in [parseRoutes] records that it
    may also panic. *)

Record Leaf := mkLeaf {
  Value : Route;             (* the Value interface holds a pointer to a Route: only routes are added *)
  Wildcards : list string
}.

Module pathtree.
Class Ops (Node : Type) := {
  New : Node;
  Add : string -> Route -> Node -> Outcome (Node * option string);
  Find : string -> Node -> option Leaf * list string
}.
End pathtree.

(** A computation of the tree run inside [M]: it logs nothing. *)
Definition liftO {A} (o : Outcome A) : M A := (o, []).

(** ** The outside world of the parser *)

#[local] Unset Elimination Schemes.
Inductive YamlValue :=
| YNull
| YBool (b : bool)
| YInt (z : Z)
| YString (s : string)
| YSeq (l : list YamlValue)
| YMap (kvs : list (YamlValue * YamlValue)).
#[local] Set Elimination Schemes.

(** One element of the unmarshalled [[]map[string]interface{}]: [None] is the
    nil map. *)
Definition YamlEntry : Type := option (gmap string YamlValue).

(** What the router reads from outside [router.go]:
    - [ReadFile]: [ioutil.ReadFile], the error text or the content;
    - [Unmarshal]: [yaml.Unmarshal] into [[]map[string]interface{}], the error
      text or the entries;
    - [ModuleByName]: the module registry, giving the module's [Path];
    - [pathJoin]: [path.Join];
    - [SetAction]: [Controller.SetAction], the lookup of a registered action;
    - [ErrorString]: the method [Error()] of [*revel.Error]. *)
Class Env := {
  ReadFile : string -> string + string;
  Unmarshal : string -> string + list YamlEntry;
  ModuleByName : string -> option string;
  pathJoin : list string -> string;
  SetAction : string -> string -> option GoError;
  ErrorString : Error -> string
}.

Definition newline : string := String (ascii_of_nat 10) EmptyString.

(** [strings.Contains]. *)
Fixpoint Contains (s sub : string) : bool :=
  String.prefix sub s ||
  match s with
  | EmptyString => false
  | String _ s' => Contains s' sub
  end.

Section Parser.
Context `{env : Env}.

Definition errorText (err : GoError) : string :=
  match err with
  | PlainError msg => msg
  | RevelError e => ErrorString e
  end.

(** The result of [Atoi] is dropped: the line is always 0.  Slicing at 17
    panics on a shorter message. *)
Definition lineFromYamlError (err : GoError) : M Z :=
  if Contains (errorText err) "YAML" then
    if (String.length (errorText err) <? 17)%nat then panic SliceOutOfRange
    else ret 0%Z
  else ret 0%Z.

(** [routeError] adds context to a simple error message. *)
Definition routeError (err : GoError) (routesPath content : string) (line : Z) : M Error :=
  match err with
  | RevelError revelError => ret revelError
  | PlainError msg =>
      content ← (if String.eqb content "" then
                   match ReadFile routesPath with
                   | inl rerr =>
                       logPrint ERROR ("Failed to read route file " ++ routesPath
                                       ++ ": " ++ rerr ++ newline);;
                       ret content
                   | inr c => ret c
                   end
                 else ret content);
      ret {| Title := "Route validation error";
             Description := msg;
             ErrPath := routesPath;
             ErrLine := line;
             SourceLines := Split content (ascii_of_nat 10) |}
  end.

(** [validateRoute] checks that every specified action exists. *)
Definition validateRoute (route : Route) : M (option GoError) :=
  if String.eqb (Action route) "404" then ret None
  else
    let parts := Split (Action route) "." in
    match parts with
    | [p0; p1] =>
        c0 ← firstIsM p0 ":";
        skip ← (if c0 : bool then ret true else firstIsM p1 ":");
        if skip : bool then ret None
        else ret (SetAction p0 p1)
    | _ =>
        ret (Some (PlainError ("Expected two parts (Controller.Action), but got "
                               ++ itoa (length parts) ++ ": " ++ Action route)))
    end.

Definition routeMethods : list string :=
  ["GET"; "POST"; "PUT"; "DELETE"; "PATCH"; "OPTIONS"; "HEAD"; "WS"; "*"].

(** One byte [p] of an alternative of [routeMethodPattern] against the front
    of the text, under the flag [(?i)]: the rest of the text when its first
    rune folds to [p].  An ASCII letter stands for its two cases, and [S]
    also for the long s, the one rune outside ASCII that folds to a letter of
    the pattern; the star stands for itself. *)
Definition foldsTo (p : ascii) (s : string) : option string :=
  match s with
  | EmptyString => None
  | String c s' =>
      if Ascii.eqb (upper_ascii c) p then Some s'
      else match s' with
           | String d s'' => if Ascii.eqb p "S" && isLongS c d then Some s'' else None
           | EmptyString => None
           end
  end.

(** The whole text is the alternative [alt], case folded. *)
Fixpoint matchFold (alt s : string) : bool :=
  match alt with
  | EmptyString => String.eqb s EmptyString
  | String p alt' =>
      match foldsTo p s with
      | Some s' => matchFold alt' s'
      | None => false
      end
  end.

(** [routeMethodPattern.MatchString]: the pattern is anchored at both ends,
    so the whole string is one of the methods, case folded. *)
Definition routeMethodPattern_MatchString (method : string) : bool :=
  existsb (fun alt => matchFold alt method) routeMethods.

Definition requiredRouteOptions : list string := ["method"; "path"; "action"].

(** [x.(string)] without the comma-ok form. *)
Definition assertString (v : YamlValue) : M string :=
  match v with
  | YString s => ret s
  | _ => panic TypeAssertion
  end.

(** The loop over [route["params"].([]interface{})], appending each
    [val.(string)]. *)
Fixpoint paramStrings (vals : list YamlValue) (params : list string) : M (list string) :=
  match vals with
  | [] => ret params
  | val :: vals =>
      s ← assertString val;
      paramStrings vals (params ++ [s])
  end.

(** The first required key the entry lacks, in the order of
    [requiredRouteOptions]. *)
Definition missingOption (route : gmap string YamlValue) : option string :=
  List.find (fun key => bool_decide (route !! key = None)) requiredRouteOptions.

(** The state of the loop of [parseRoutes]: [joinedPath] is assigned inside
    the loop, so it is carried from one entry to the next. *)
Record ParseState := mkParseState {
  psJoinedPath : string;
  psRoutes : list Route
}.

Section Loop.
(** [getModuleRoutes], the recursive call. *)
Variable getModuleRoutes : string -> string -> bool -> M (list Route * option Error).
Variables (routesPath content : string) (validate : bool).

(** One iteration: the new state, or the error [parseRoutes] returns. *)
Definition parseEntry (st : ParseState) (entry : YamlEntry) : M (ParseState + Error) :=
  match entry with
  | None => ret (inl st)
  | Some route =>
      match route !! "import" with
      | Some (YString moduleName) =>
          let prefix := match route !! "prefix" with
                        | Some (YString p) => p
                        | _ => ""
                        end in
          let joinedPath :=
            if HasSuffix (psJoinedPath st) "/" && HasPrefix prefix "/"
            then dropLast (psJoinedPath st) else psJoinedPath st in
          let modulePrefix := Join [joinedPath; prefix] "" in
          '(moduleRoutes, err) ← getModuleRoutes moduleName modulePrefix validate;
          match err with
          | Some e =>
              l ← lineFromYamlError (RevelError e);
              e' ← routeError (RevelError e) routesPath content l;
              ret (inr e')
          | None =>
              ret (inl {| psJoinedPath := joinedPath;
                          psRoutes := psRoutes st ++ moduleRoutes |})
          end
      | _ =>
          match missingOption route with
          | Some key =>
              e ← routeError (PlainError ("Missing required route option "
                                          ++ dquote ++ key ++ dquote))
                             routesPath content 0;
              ret (inr e)
          | None =>
              params ← match route !! "params" with
                       | Some (YSeq vals) => paramStrings vals []
                       | Some _ => panic TypeAssertion
                       | None => ret []
                       end;
              method ← assertString (default YNull (route !! "method"));
              if negb (routeMethodPattern_MatchString method) then
                e ← routeError (PlainError ("Unknown route method "
                                            ++ dquote ++ method ++ dquote))
                               routesPath content 0;
                ret (inr e)
              else
                path ← assertString (default YNull (route !! "path"));
                action ← assertString (default YNull (route !! "action"));
                route ← NewRoute method path action routesPath params;
                let routes := psRoutes st ++ [route] in
                verr ← (if validate then validateRoute route else ret None);
                match verr with
                | Some err =>
                    e ← routeError err routesPath content 0;
                    ret (inr e)
                | None =>
                    ret (inl {| psJoinedPath := psJoinedPath st; psRoutes := routes |})
                end
          end
      end
  end.

Fixpoint parseLoop (st : ParseState) (entries : list YamlEntry)
  : M (list Route * option Error) :=
  match entries with
  | [] => ret (psRoutes st, None)
  | entry :: entries =>
      r ← parseEntry st entry;
      match r with
      | inl st' => parseLoop st' entries
      | inr e => ret ([], Some e)
      end
  end.
End Loop.

(** [parseRoutes] reads the content of a routes file into the routing
    table, given the function that loads the routes of a module. *)
Definition parseRoutesWith
    (getModuleRoutes : string -> string -> bool -> M (list Route * option Error))
    (routesPath joinedPath content : string) (validate : bool)
  : M (list Route * option Error) :=
  match Unmarshal content with
  | inl yerr =>
      l ← lineFromYamlError (PlainError yerr);
      e ← routeError (PlainError yerr) routesPath content l;
      ret ([], Some e)
  | inr parsedYaml =>
      parseLoop getModuleRoutes routesPath content validate
                {| psJoinedPath := joinedPath; psRoutes := [] |} parsedYaml
  end.

(** [getModuleRoutes], given the function that parses a routes file. *)
Definition getModuleRoutesWith
    (parseRoutesFile : string -> string -> bool -> M (list Route * option Error))
    (moduleName joinedPath : string) (validate : bool)
  : M (list Route * option Error) :=
  match ModuleByName moduleName with
  | None =>
      logPrint INFO ("Skipping routes for inactive module " ++ moduleName ++ newline);;
      ret ([], None)
  | Some modulePath =>
      parseRoutesFile (pathJoin [modulePath; "conf"; "routes.yml"]) joinedPath validate
  end.

(** [parseRoutesFile] reads the given routes file and returns the contained
    routes.  The three functions call each other through the import
    entries; [fuel] bounds the number of files opened along one chain of
    imports. *)
Fixpoint parseRoutesFile (fuel : nat) (routesPath joinedPath : string) (validate : bool)
  : M (list Route * option Error) :=
  match fuel with
  | O => (OutOfFuel, [])
  | S fuel =>
      match ReadFile routesPath with
      | inl rerr =>
          ret ([], Some {| Title := "Failed to load routes file";
                           Description := rerr;
                           ErrPath := ""; ErrLine := 0; SourceLines := [] |})
      | inr content =>
          parseRoutesWith (getModuleRoutesWith (parseRoutesFile fuel))
                          routesPath joinedPath content validate
      end
  end.

Definition getModuleRoutes (fuel : nat) := getModuleRoutesWith (parseRoutesFile fuel).

Definition parseRoutes (fuel : nat) := parseRoutesWith (getModuleRoutes fuel).

End Parser.

(** ** The router *)

Record Router (Node : Type) := mkRouter {
  Routes : list Route;
  Tree : Node;
  path : string           (* path to the routes file *)
}.
Arguments mkRouter {Node}.
Arguments Routes {Node}.
Arguments Tree {Node}.
Arguments path {Node}.

Definition notFound : RouteMatch :=
  {| rmAction := "404"; rmControllerName := ""; rmMethodName := "";
     rmFixedParams := []; rmParams := ∅ |}.

(** [l[0]] on a slice. *)
Definition index0 (l : list string) : M string :=
  match l with
  | [] => panic IndexOutOfRange
  | x :: _ => ret x
  end.

(** The loop [for i, v := range expansions] of [Route], from index [i] on. *)
Fixpoint fillParams (wildcards : list string) (i : nat) (expansions : list string)
    (params : gmap string (list string)) : M (gmap string (list string)) :=
  match expansions with
  | [] => ret params
  | v :: expansions =>
      match wildcards !! i with
      | Some name => fillParams wildcards (S i) expansions (<[name := [v]]> params)
      | None => panic IndexOutOfRange
      end
  end.

(** A variablized name is replaced by the captured argument. *)
Definition resolveName (params : gmap string (list string)) (name : string) : M string :=
  b ← firstIsM name ":";
  if b : bool then index0 (default [] (params !! tail name)) else ret name.

(** [Route] from the point where the tree has answered with a leaf. *)
Definition routeLeaf (leaf : Leaf) (expansions : list string) : M (option RouteMatch) :=
  let route := Value leaf in
  params ← fillParams (Wildcards leaf) 0 expansions ∅;
  if String.eqb (Action route) "404" then ret (Some notFound)
  else
    controllerName ← resolveName params (ControllerName route);
    methodName ← resolveName params (MethodName route);
    ret (Some {| rmAction := "";
                 rmControllerName := controllerName;
                 rmMethodName := methodName;
                 rmFixedParams := FixedParams route;
                 rmParams := params |}).

Section RouterOps.
Context `{env : Env} {Node : Type} `{tree : !pathtree.Ops Node}.

(** The methods of [*Router] are named [Router_...].  [Router.Route]:
    [None] is the nil result. *)
Definition Router_Route (router : Router Node) (reqMethod reqPath : string) : M (option RouteMatch) :=
  let '(leaf, expansions) := pathtree.Find (treePath reqMethod reqPath) (Tree router) in
  match leaf with
  | None => ret None
  | Some leaf => routeLeaf leaf expansions
  end.

(** The loop of [updateTree] over the routes still to add. *)
Fixpoint addRoutes (routes : list Route) (t : Node) : M (Node * option Error) :=
  match routes with
  | [] => ret (t, None)
  | route :: routes =>
      '(t, err) ← liftO (pathtree.Add (TreePath route) route t);
      (* Allow GETs to respond to HEAD requests. *)
      '(t, err) ← (match err with
                   | None =>
                       if String.eqb (Method route) "GET"
                       then liftO (pathtree.Add (treePath "HEAD" (Path route)) route t)
                       else ret (t, err)
                   | Some _ => ret (t, err)
                   end);
      match err with
      | Some msg =>
          e ← routeError (PlainError msg) (routesPath route) "" 0;
          ret (t, Some e)
      | None => addRoutes routes t
      end
  end.

Definition Router_updateTree (router : Router Node) : M (Router Node * option Error) :=
  '(t, err) ← addRoutes (Routes router) pathtree.New;
  ret ({| Routes := Routes router; Tree := t; path := path router |}, err).

(** [Refresh] re-reads the routes file and re-calculates the routing table.
    The field [Routes] is assigned from the result of [parseRoutesFile]
    before the error is looked at. *)
Definition Router_Refresh (fuel : nat) (router : Router Node) : M (Router Node * option Error) :=
  '(routes, err) ← parseRoutesFile fuel (path router) "" true;
  let router := {| Routes := routes; Tree := Tree router; path := path router |} in
  match err with
  | Some e => ret (router, Some e)
  | None => Router_updateTree router
  end.

Definition NewRouter (routesPath : string) : Router Node :=
  {| Routes := []; Tree := pathtree.New; path := routesPath |}.

End RouterOps.

(** ** Reverse routing

    [Reverse] receives a Go map, that is a reference: the maps live in a heap,
    [argValues] is a location of it or nil, and the writes and deletes of
    [Reverse] update the heap. *)

Abbreviation loc := positive (only parsing).

Abbreviation Heap := (gmap loc (gmap string string)) (only parsing).

(** A Go value of type [map[string]string]: nil or a reference. *)
Definition MapRef : Type := option loc.

Definition deref (h : Heap) (l : loc) : gmap string string := default ∅ (h !! l).

(** [v, ok := m[k]]: reading the nil map finds nothing. *)
Definition mapRead (h : Heap) (m : MapRef) (k : string) : option string :=
  match m with
  | None => None
  | Some l => deref h l !! k
  end.

(** [m[k] = v]: panics on the nil map. *)
Definition mapWrite (h : Heap) (m : MapRef) (k v : string) : M Heap :=
  match m with
  | None => panic NilMapWrite
  | Some l => ret (<[l := <[k := v]> (deref h l)]> h)
  end.

(** [delete(m, k)]: a no-op on the nil map. *)
Definition mapDelete (h : Heap) (m : MapRef) (k : string) : Heap :=
  match m with
  | None => h
  | Some l => <[l := delete k (deref h l)]> h
  end.

(** The content the reference stands for. *)
Definition mapContent (h : Heap) (m : MapRef) : gmap string string :=
  match m with
  | None => ∅
  | Some l => deref h l
  end.

Record ActionDefinition := mkActionDefinition {
  Host : string;
  adMethod : string;
  Url : string;
  adAction : string;
  Star : bool;
  Args : MapRef
}.

Module url.

Definition hexDigit (n : nat) : ascii :=
  nth n (list_ascii_of_string "0123456789ABCDEF") "0"%char.

(** The bytes [QueryEscape] keeps: letters, digits and [-_.~]. *)
Definition unreserved (c : ascii) : bool :=
  let n := nat_of_ascii c in
  (((65 <=? n) && (n <=? 90)) || ((97 <=? n) && (n <=? 122))
   || ((48 <=? n) && (n <=? 57))
   || (n =? 45) || (n =? 95) || (n =? 46) || (n =? 126))%nat.

(** [url.QueryEscape]. *)
Fixpoint QueryEscape (s : string) : string :=
  match s with
  | EmptyString => EmptyString
  | String c s' =>
      if unreserved c then String c (QueryEscape s')
      else if Ascii.eqb c " " then String "+" (QueryEscape s')
      else
        let n := nat_of_ascii c in
        String "%" (String (hexDigit (n / 16)) (String (hexDigit (n mod 16))
                                                     (QueryEscape s')))
  end.

Definition key_le (a b : string * string) : Prop := String.leb a.1 b.1 = true.

#[global] Instance key_le_dec a b : Decision (key_le a b).
Proof. unfold key_le. apply _. Defined.

(** [Values.Encode] of the values [Reverse] builds, one value for each key:
    the pairs [key=value], escaped, sorted by key and joined by [&]. *)
Definition Encode (queryValues : gmap string string) : string :=
  Join (map (fun kv => (QueryEscape kv.1 ++ "=" ++ QueryEscape kv.2)%string)
            (merge_sort key_le (map_to_list queryValues))) "&".

End url.

(** How [fmt] prints a [map[string]string], keys in order. *)
Definition showMap (m : gmap string string) : string :=
  "map[" ++ Join (map (fun kv => (kv.1 ++ ":" ++ kv.2)%string)
                      (merge_sort url.key_le (map_to_list m))) " " ++ "]".

(** The loop over [pathElements] of [Reverse]: the elements after
    substitution, and the heap after the deletes. *)
Fixpoint substPath (argValues : MapRef) (pathElements : list string) (h : Heap)
  : M (list string * Heap) :=
  match pathElements with
  | [] => ret ([], h)
  | el :: pathElements =>
      match firstIs el ":" with
      | Some true =>
          val ← match mapRead h argValues (tail el) with
                | Some val => ret val
                | None =>
                    logPrint ERROR ("revel/router: reverse route missing route arg "
                                    ++ tail el);;
                    ret "<nil>"
                end;
          let h := mapDelete h argValues (tail el) in
          '(rest, h) ← substPath argValues pathElements h;
          ret (val :: rest, h)
      | _ =>
          '(rest, h) ← substPath argValues pathElements h;
          ret (el :: rest, h)
      end
  end.

(** The body of the loop of [Reverse] for a route that passed the two tests:
    the bindings of the wildcards, the URL, the result. *)
Definition reverseWith (route : Route) (action controllerName methodName : string)
    (controllerWildcard methodWildcard : bool) (argValues : MapRef) (h : Heap)
  : M (option ActionDefinition * Heap) :=
  h ← (if controllerWildcard
       then mapWrite h argValues (tail (ControllerName route)) controllerName
       else ret h);
  h ← (if methodWildcard
       then mapWrite h argValues (tail (MethodName route)) methodName
       else ret h);
  (* Build up the URL. *)
  '(pathElements, h) ← substPath argValues (Split (Path route) "/") h;
  (* Add any args that were not inserted into the path into the query string. *)
  let queryValues := mapContent h argValues in
  (* Calculate the final URL and Method *)
  let url := Join pathElements "/" in
  let url := if bool_decide (0 < size queryValues)%nat
             then (url ++ "?" ++ url.Encode queryValues)%string else url in
  let star := String.eqb (Method route) "*" in
  let method := if star then "GET" else Method route in
  ret (Some {| Url := url; adMethod := method; Star := star; adAction := action;
               Args := argValues; Host := "TODO" |}, h).

(** The loop [for _, route := range router.Routes] of [Reverse]. *)
Fixpoint reverseLoop (routes : list Route) (action controllerName methodName : string)
    (argValues : MapRef) (h : Heap) : M (option ActionDefinition * Heap) :=
  match routes with
  | [] =>
      logPrint ERROR ("Failed to find reverse route: " ++ action ++ " "
                      ++ showMap (mapContent h argValues) ++ newline);;
      ret (None, h)
  | route :: routes =>
      (* Skip routes without either a ControllerName or MethodName *)
      if String.eqb (ControllerName route) "" || String.eqb (MethodName route) "" then
        reverseLoop routes action controllerName methodName argValues h
      else
        (* Check that the action matches or is a wildcard. *)
        controllerWildcard ← firstIsM (ControllerName route) ":";
        methodWildcard ← firstIsM (MethodName route) ":";
        if (negb controllerWildcard && negb (String.eqb (ControllerName route) controllerName))
           || (negb methodWildcard && negb (String.eqb (MethodName route) methodName))
        then reverseLoop routes action controllerName methodName argValues h
        else reverseWith route action controllerName methodName
                         controllerWildcard methodWildcard argValues h
  end.

(** [Router.Reverse]: the result ([None] is nil) and the heap it leaves. *)
Definition Router_Reverse {Node} (router : Router Node) (action : string)
    (argValues : MapRef) (h : Heap) : M (option ActionDefinition * Heap) :=
  match Split action "." with
  | [controllerName; methodName] =>
      reverseLoop (Routes router) action controllerName methodName argValues h
  | _ =>
      logPrint ERROR ("revel/router: reverse router got invalid action " ++ action);;
      ret (None, h)
  end.

(** ** A path tree *)

Module SpecTree.

#[local] Unset Elimination Schemes.
(** Modelled from the spec: the match tree of section 4.3, for the imported
    package [pathtree], whose code is not part of the repository.  A node
    stands for one path segment; it holds at most one leaf, its literal
    children keyed by the next segment, one child for a named segment
    ([:name]) and a leaf for a trailing catch-all segment (taken to be
    written [*name]).  The names of the captures are kept at the leaf, as
    [Route] reads them from [leaf.Wildcards]. *)
Inductive Node :=
| mkNode (leaf : option Leaf) (edges : gmap string Node)
         (wildcard : option Node) (star : option Leaf).
#[local] Set Elimination Schemes.

Definition leaf (n : Node) := let 'mkNode l _ _ _ := n in l.
Definition edges (n : Node) := let 'mkNode _ e _ _ := n in e.
Definition wildcard (n : Node) := let 'mkNode _ _ w _ := n in w.
Definition star (n : Node) := let 'mkNode _ _ _ s := n in s.

(** Modelled from the spec: [pathtree.New], the tree with no route. *)
Definition New : Node := mkNode None ∅ None None.

(** Modelled from the spec: the segments of a key, which is split at the
    slashes, without the empty piece before the leading slash and the one
    after a trailing slash. *)
Definition splitPath (key : string) : list string :=
  let elements := Split key "/" in
  let elements := match elements with
                  | EmptyString :: rest => rest
                  | _ => elements
                  end in
  match last elements with
  | Some EmptyString => removelast elements
  | _ => elements
  end.

(** Modelled from the spec: insertion walks the segments and creates the
    missing nodes; two structurally identical keys are a build-time error.
    An empty segment (a double slash) is the runtime panic that the comment
    in [parseRoutes] reports. *)
Fixpoint add (elements wildcards : list string) (val : Route) (n : Node)
  : Outcome (Node * option string) :=
  match elements with
  | [] =>
      match leaf n with
      | Some _ => Done (n, Some "duplicate path")
      | None =>
          Done (mkNode (Some {| Value := val; Wildcards := wildcards |})
                       (edges n) (wildcard n) (star n), None)
      end
  | el :: elements =>
      match el with
      | EmptyString => Panic TreePanic
      | String c name =>
          if Ascii.eqb c ":" then
            match add elements (wildcards ++ [name]) val (default New (wildcard n)) with
            | Done (child, err) =>
                Done (mkNode (leaf n) (edges n) (Some child) (star n), err)
            | Panic p => Panic p
            | OutOfFuel => OutOfFuel
            end
          else if Ascii.eqb c "*" then
            match star n with
            | Some _ => Done (n, Some "duplicate path")
            | None =>
                Done (mkNode (leaf n) (edges n) (wildcard n)
                             (Some {| Value := val; Wildcards := wildcards ++ [name] |}),
                      None)
            end
          else
            match add elements wildcards val (default New (edges n !! el)) with
            | Done (child, err) =>
                Done (mkNode (leaf n) (<[el := child]> (edges n)) (wildcard n) (star n),
                      err)
            | Panic p => Panic p
            | OutOfFuel => OutOfFuel
            end
      end
  end.

(** Modelled from the spec: [Add], for a key that begins with a slash. *)
Definition Add (key : string) (val : Route) (n : Node) : Outcome (Node * option string) :=
  match firstIs key "/" with
  | Some true => add (splitPath key) [] val n
  | _ => Done (n, Some "Path must begin with /")
  end.

(** Modelled from the spec: matching walks the key segment by segment; at
    each level an exact literal child is preferred, then the named child,
    which captures the segment, then the catch-all, which captures the rest
    of the path as one value; otherwise nothing is found. *)
Fixpoint find (elements exp : list string) (n : Node) : option Leaf * list string :=
  match elements with
  | [] => (leaf n, exp)
  | el :: elements =>
      match edges n !! el with
      | Some child => find elements exp child
      | None =>
          match wildcard n with
          | Some child => find elements (exp ++ [el]) child
          | None =>
              match star n with
              | Some l => (Some l, exp ++ [Join (el :: elements) "/"])
              | None => (None, [])
              end
          end
      end
  end.

(** Modelled from the spec: [Find], the leaf and the captured values. *)
Definition Find (key : string) (n : Node) : option Leaf * list string :=
  match firstIs key "/" with
  | Some true => find (splitPath key) [] n
  | _ => (None, [])
  end.

#[global] Instance ops : pathtree.Ops Node :=
  {| pathtree.New := New; pathtree.Add := Add; pathtree.Find := Find |}.

End SpecTree.

(** ** A small world to run the router in *)

Module World.

Fixpoint assoc {A} (k : string) (l : list (string * A)) : option A :=
  match l with
  | [] => None
  | (k', v) :: l => if String.eqb k k' then Some v else assoc k l
  end.

(** An environment given by tables: the files and their contents, the
    contents and what they unmarshal to, the active modules and their
    paths, the registered actions. *)
Definition tableEnv (files : list (string * string))
    (docs : list (string * list YamlEntry))
    (modules : list (string * string))
    (actions : list (string * string)) : Env :=
  {| ReadFile p := match assoc p files with
                   | Some c => inr c
                   | None => inl ("open " ++ p ++ ": no such file or directory")%string
                   end;
     Unmarshal c := match assoc c docs with
                    | Some d => inr d
                    | None => inl "YAML error: line 1: did not find expected node"
                    end;
     ModuleByName name := assoc name modules;
     pathJoin l := Join l "/";
     SetAction c m := if bool_decide ((c, m) ∈ actions) then None
                      else Some (PlainError ("revel/controller: failed to find controller "
                                             ++ c));
     ErrorString e := (Title e ++ ": " ++ Description e)%string |}.

(** A route entry of a document. *)
Definition entry (kvs : list (string * YamlValue)) : YamlEntry :=
  Some (list_to_map kvs).

Definition routeEntry (method path action : string) : YamlEntry :=
  entry [("method", YString method); ("path", YString path); ("action", YString action)].

End World.

(** ** Reverse routing, said without the loop *)

(** [name[0] == ':'] for a name known not to be empty. *)
Definition isPlaceholder (name : string) : bool :=
  match firstIs name ":" with
  | Some b => b
  | None => false
  end.

(** The route answers the reverse lookup of [controllerName.methodName]: its
    two names are set, and each is the one asked for or a placeholder. *)
Definition reverseMatches (controllerName methodName : string) (route : Route) : bool :=
  negb (String.eqb (ControllerName route) "" || String.eqb (MethodName route) "")
  && (isPlaceholder (ControllerName route)
      || String.eqb (ControllerName route) controllerName)
  && (isPlaceholder (MethodName route)
      || String.eqb (MethodName route) methodName).

(** The winning route of the reverse scan: the first one that answers. *)
Definition winner (controllerName methodName : string) (routes : list Route) : option Route :=
  List.find (reverseMatches controllerName methodName) routes.

(** The argument map once the placeholders of the action are bound. *)
Definition boundArgs (route : Route) (controllerName methodName : string)
    (args : gmap string string) : gmap string string :=
  let args := if isPlaceholder (ControllerName route)
              then <[tail (ControllerName route) := controllerName]> args else args in
  if isPlaceholder (MethodName route)
  then <[tail (MethodName route) := methodName]> args else args.

(** The names of the [:name] segments of a path, in order. *)
Definition pathArgNames (pathElements : list string) : list string :=
  map tail (filter (fun el => isPlaceholder el = true) pathElements).

(** The argument map once the names are consumed. *)
Definition consumed (names : list string) (args : gmap string string) : gmap string string :=
  foldl (fun m k => delete k m) args names.

(** The line [Reverse] logs for a segment without argument. *)
Definition missingArgLine (el : string) : LogLine :=
  (ERROR, ("revel/router: reverse route missing route arg " ++ tail el)%string).

(** The heap after the writes of the placeholder bindings and after the
    deletes of the consumed names. *)
Definition heapWrite (h : Heap) (argValues : MapRef) (k v : string) : Heap :=
  match argValues with
  | None => h
  | Some l => <[l := <[k := v]> (deref h l)]> h
  end.

Definition boundHeap (route : Route) (c m : string) (argValues : MapRef) (h : Heap) : Heap :=
  let h := if isPlaceholder (ControllerName route)
           then heapWrite h argValues (tail (ControllerName route)) c else h in
  if isPlaceholder (MethodName route)
  then heapWrite h argValues (tail (MethodName route)) m else h.

Definition consumedHeap (names : list string) (argValues : MapRef) (h : Heap) : Heap :=
  foldl (fun h k => mapDelete h argValues k) h names.

Definition reverseUrl (els : list string) (queryValues : gmap string string) : string :=
  if bool_decide (0 < size queryValues)%nat
  then (Join els "/" ++ "?" ++ url.Encode queryValues)%string
  else Join els "/".


(** ** Route entries, said without the loop *)

(** The module an import entry names. *)
Definition importName (route : gmap string YamlValue) : option string :=
  match route !! "import" with
  | Some (YString moduleName) => Some moduleName
  | _ => None
  end.

(** The strings of a sequence whose elements are all strings. *)
Fixpoint stringsOf (vals : list YamlValue) : option (list string) :=
  match vals with
  | [] => Some []
  | YString s :: vals => cons s <$> stringsOf vals
  | _ => None
  end.

(** The fixed parameters of an entry whose [params], when present, is a
    sequence of strings. *)
Definition fixedParamsOf (route : gmap string YamlValue) : option (list string) :=
  match route !! "params" with
  | None => Some []
  | Some (YSeq vals) => stringsOf vals
  | Some _ => None
  end.

(** The string under a key, when there is one. *)
Definition stringAt (route : gmap string YamlValue) (key : string) : option string :=
  match route !! key with
  | Some (YString s) => Some s
  | _ => None
  end.

Definition missingOptionMessage (key : string) : string :=
  "Missing required route option " ++ dquote ++ key ++ dquote.

(** ** Example documents *)

Module Examples.
Import World.

Definition routesFile : string := "conf/routes.yml".

Definition actions : list (string * string) :=
  [("Users", "Show"); ("Health", "Ping"); ("Static", "Serve")].

(** The world whose routes file unmarshals to [doc]. *)
Definition envOf (doc : list YamlEntry) : Env :=
  tableEnv [(routesFile, "routes")] [("routes", doc)] [] actions.

Definition goodDoc : list YamlEntry :=
  [routeEntry "GET" "/users/:id" "Users.Show";
   routeEntry "*" "/ping" "Health.Ping";
   routeEntry "GET" "/old" "404"].

(** A document whose one route, declared for any method, takes its
    controller from the path. *)
Definition placeholderDoc : list YamlEntry :=
  [routeEntry "*" "/:controller/:id" ":controller.Show"].

(** An entry without the key [action]. *)
Definition noActionEntry : gmap string YamlValue :=
  list_to_map [("method", YString "GET"); ("path", YString "/users")].

(** An entry with the three required keys and no [params]. *)
Definition usersEntry : gmap string YamlValue :=
  list_to_map [("method", YString "GET"); ("path", YString "/users/:id");
               ("action", YString "Users.Show")].

(** An entry whose path has no leading slash. *)
Definition relativeEntry : gmap string YamlValue :=
  list_to_map [("method", YString "GET"); ("path", YString "users");
               ("action", YString "404")].


(** An entry whose controller is a placeholder the path does not capture. *)
Definition uncapturedEntry : gmap string YamlValue :=
  list_to_map [("method", YString "GET"); ("path", YString "/x");
               ("action", YString ":controller.Index")].

(** An entry whose method is a number. *)
Definition numberMethodEntry : gmap string YamlValue :=
  list_to_map [("method", YInt 1); ("path", YString "/x");
               ("action", YString "Users.Show")].

(** The router after a first refresh in the world of [doc]. *)
Definition loaded (doc : list YamlEntry) : M (Router SpecTree.Node * option Error) :=
  Router_Refresh (env := envOf doc) 1 (NewRouter routesFile).

Definition routerOf (doc : list YamlEntry) : Router SpecTree.Node :=
  match loaded doc with
  | (Done (r, _), _) => r
  | _ => NewRouter routesFile
  end.

End Examples.

(** ** The tree build, said without the loop *)

(** The keys a route is inserted under: its own, and for a GET route the
    HEAD key of its path. *)
Definition treeKeys (route : Route) : list string :=
  TreePath route ::
  (if String.eqb (Method route) "GET" then [treePath "HEAD" (Path route)] else []).

(** The insertions of a tree build, in order. *)
Definition insertions (routes : list Route) : list (string * Route) :=
  flat_map (fun route => map (fun key => (key, route)) (treeKeys route)) routes.

(** The insertions made one after the other, up to the first error. *)
Fixpoint addAll {Node} `{tree : !pathtree.Ops Node} (ins : list (string * Route)) (t : Node)
  : Outcome (Node * option string) :=
  match ins with
  | [] => Done (t, None)
  | (key, route) :: ins =>
      match pathtree.Add key route t with
      | Done (t, None) => addAll ins t
      | other => other
      end
  end.

(** A route as [NewRoute] builds it from an entry the parser accepts: its
    tree key is made of its method and path, and its method is one of the
    known methods, in capitals. *)
Definition parsedRoute (route : Route) : Prop :=
  TreePath route = treePath (Method route) (Path route)
  /\ In (Method route) routeMethods.

(** The first segment of a path and the segments after it, as the tree cuts
    the key made of a method and the path. *)
Definition pathSegments (path : string) : string * list string :=
  match Split path "/" with
  | [] => (EmptyString, [])
  | p0 :: rest =>
      (p0, match last rest with
           | Some EmptyString => removelast rest
           | _ => rest
           end)
  end.

(** Every leaf of the tree satisfies [P]. *)
Inductive LeavesIn (P : Leaf -> Prop) : SpecTree.Node -> Prop :=
| LeavesIn_node (n : SpecTree.Node) :
    (forall l, SpecTree.leaf n = Some l -> P l) ->
    (forall k c, SpecTree.edges n !! k = Some c -> LeavesIn P c) ->
    (forall c, SpecTree.wildcard n = Some c -> LeavesIn P c) ->
    (forall l, SpecTree.star n = Some l -> P l) ->
    LeavesIn P n.

(** No byte of the string is a slash. *)
Fixpoint noSlash (s : string) : bool :=
  match s with
  | EmptyString => true
  | String c s' => negb (Ascii.eqb c "/") && noSlash s'
  end.

(** The leaf does not hold a GET route. *)
Definition notGet (l : Leaf) : Prop := Method (Value l) <> "GET".

(** What the tree build keeps true of the root when no route is declared for
    HEAD: the literal children for [GET...] and [HEAD...] are the same, and
    no GET route sits under the named child or in the catch-all. *)
Definition headMirrorsGet (t : SpecTree.Node) : Prop :=
  (forall x : string,
      SpecTree.edges t !! ("GET" ++ x)%string = SpecTree.edges t !! ("HEAD" ++ x)%string)
  /\ (forall c, SpecTree.wildcard t = Some c -> LeavesIn notGet c)
  /\ (forall l, SpecTree.star t = Some l -> notGet l).

(** Every list of routes the function returns is made of parsed routes. *)
Definition returnsParsed (f : string -> string -> bool -> M (list Route * option Error))
  : Prop :=
  forall a b v routes err log,
    f a b v = (Done (routes, err), log) -> Forall parsedRoute routes.

(** A document with a route for HEAD and a later GET route that matches the
    same path. *)
Definition headAndGetDoc : list YamlEntry :=
  [World.routeEntry "HEAD" "/a" "Static.Serve";
   World.routeEntry "GET" "/:x" "Users.Show"].

(** ** More of the parser, said without the loop *)

(** The lines logged before are put in front. *)
Definition logged {A} (l : list LogLine) (m : M A) : M A := (m.1, l ++ m.2).

(** The work of [parseRoutes] on an entry that is a route: the route built
    and validated, or the error returned.  It reads nothing of the state of
    the loop. *)
Definition routeOfEntry `{env : Env} (routesPath content : string) (validate : bool)
    (route : gmap string YamlValue) : M (Route + Error) :=
  params ← match route !! "params" with
           | Some (YSeq vals) => paramStrings vals []
           | Some _ => panic TypeAssertion
           | None => ret []
           end;
  method ← assertString (default YNull (route !! "method"));
  if negb (routeMethodPattern_MatchString method) then
    e ← routeError (PlainError ("Unknown route method " ++ dquote ++ method ++ dquote))
                   routesPath content 0;
    ret (inr e)
  else
    path ← assertString (default YNull (route !! "path"));
    action ← assertString (default YNull (route !! "action"));
    route ← NewRoute method path action routesPath params;
    verr ← (if validate then validateRoute route else ret None);
    match verr with
    | Some err => e ← routeError err routesPath content 0; ret (inr e)
    | None => ret (inl route)
    end.

(** The state of the loop after a route entry. *)
Definition afterRoute (st : ParseState) (r : Route + Error) : M (ParseState + Error) :=
  match r with
  | inl route => ret (inl {| psJoinedPath := psJoinedPath st;
                             psRoutes := psRoutes st ++ [route] |})
  | inr e => ret (inr e)
  end.

(** The function gives the same answer whatever prefix it is handed. *)
Definition prefixBlind (f : string -> string -> bool -> M (list Route * option Error)) : Prop :=
  forall a p1 p2 v, f a p1 v = f a p2 v.

(** The route is the one the parser builds from the entry. *)
Definition entryRoute (file : string) (entry : gmap string YamlValue) (r : Route) : Prop :=
  exists method,
    stringAt entry "method" = Some method
    /\ Method r = ToUpper method
    /\ stringAt entry "path" = Some (Path r)
    /\ stringAt entry "action" = Some (Action r)
    /\ fixedParamsOf entry = Some (FixedParams r)
    /\ routesPath r = file
    /\ TreePath r = treePath (Method r) (Path r).

(** Every error the function returns has line 0. *)
Definition returnsNoLine (f : string -> string -> bool -> M (list Route * option Error))
  : Prop :=
  forall a b v routes e log,
    f a b v = (Done (routes, Some e), log) -> ErrLine e = 0%Z.

(** The lookup of an action reports a failure as a plain error, or as an
    error without line. *)
Definition plainSetAction `{env : Env} : Prop :=
  forall c m e, SetAction c m = Some (RevelError e) -> ErrLine e = 0%Z.

(** ** More of reverse routing, said without the loop *)

(** A path element after substitution from the argument map. *)
Definition substituted (args : gmap string string) (el : string) : string :=
  if isPlaceholder el then default "<nil>" (args !! tail el) else el.

(** ** The filter

    [RouterFilter] works on a [*Controller] of the framework, which it
    changes in place: the model returns the controller it leaves.  Of the
    controller it keeps the fields the filter reads or writes; [SetAction]
    and [NotFound] belong to the framework, as do the filters of the chain. *)

Record Request := mkRequest {
  ReqMethod : string;        (* c.Request.Method *)
  URLPath : string;          (* c.Request.URL.Path *)
  RequestURI : string
}.

Record Controller (Result : Type) := mkController {
  cRequest : Request;
  cResult : option Result;                         (* nil until a result is set *)
  ParamsRoute : gmap string (list string);         (* c.Params.Route *)
  ParamsFixed : option (gmap string (list string)); (* c.Params.Fixed: nil or a map *)
  MethodArgs : list string                         (* the names of c.MethodType.Args *)
}.
Arguments mkController {Result}.
Arguments cRequest {Result}.
Arguments cResult {Result}.
Arguments ParamsRoute {Result}.
Arguments ParamsFixed {Result}.
Arguments MethodArgs {Result}.

(** The framework around the filter:
    - [Controller_SetAction]: [c.SetAction], the controller it leaves and
      its error;
    - [Controller_NotFound]: the result made by [c.NotFound];
    - [runFilter]: the call of a filter on a controller and the rest of the
      chain. *)
Class Framework (Result Filter : Type) := {
  Controller_SetAction : Controller Result -> string -> string -> Controller Result * option GoError;
  Controller_NotFound : Controller Result -> string -> Result;
  runFilter : Filter -> Controller Result -> list Filter -> M (Controller Result)
}.

Definition setResult {Result} (c : Controller Result) (r : Result) : Controller Result :=
  {| cRequest := cRequest c; cResult := Some r; ParamsRoute := ParamsRoute c;
     ParamsFixed := ParamsFixed c; MethodArgs := MethodArgs c |}.

Definition setParamsRoute {Result} (c : Controller Result) (params : gmap string (list string)) :
    Controller Result :=
  {| cRequest := cRequest c; cResult := cResult c; ParamsRoute := params;
     ParamsFixed := ParamsFixed c; MethodArgs := MethodArgs c |}.

Definition setParamsFixed {Result} (c : Controller Result) (fixed : gmap string (list string)) :
    Controller Result :=
  {| cRequest := cRequest c; cResult := cResult c; ParamsRoute := ParamsRoute c;
     ParamsFixed := Some fixed; MethodArgs := MethodArgs c |}.

(** The loop [for i, value := range route.FixedParams] of [RouterFilter],
    from index [i] on.  The map is made before the index is compared;
    [Set] replaces the values of the name. *)
Fixpoint bindFixed {Result} (action : string) (i : nat) (values : list string)
    (c : Controller Result) : M (Controller Result) :=
  match values with
  | [] => ret c
  | value :: values =>
      let c := setParamsFixed c (default ∅ (ParamsFixed c)) in
      match MethodArgs c !! i with
      | Some arg =>
          bindFixed action (S i) values
                    (setParamsFixed c (<[arg := [value]]> (default ∅ (ParamsFixed c))))
      | None =>
          logPrint WARN ("Too many parameters to " ++ action ++ " trying to add " ++ value
                         ++ newline);;
          ret c
      end
  end.

Section Filter.
Context `{env : Env} {Node : Type} `{tree : !pathtree.Ops Node}.
Context {Result Filter : Type} `{fw : !Framework Result Filter}.

(** [fc[0](c, fc[1:])]. *)
Definition callNext (c : Controller Result) (fc : list Filter) : M (Controller Result) :=
  match fc with
  | [] => panic IndexOutOfRange
  | f :: fc => runFilter f c fc
  end.

(** [RouterFilter], with the router for [MainRouter]. *)
Definition RouterFilter (MainRouter : Router Node) (c : Controller Result) (fc : list Filter) :
    M (Controller Result) :=
  (* Figure out the Controller/Action *)
  route ← Router_Route MainRouter (ReqMethod (cRequest c)) (URLPath (cRequest c));
  match route with
  | None =>
      ret (setResult c (Controller_NotFound c ("No matching route found: "
                                               ++ RequestURI (cRequest c))))
  | Some route =>
      (* The route may want to explicitly return a 404. *)
      if String.eqb (rmAction route) "404" then
        ret (setResult c (Controller_NotFound c "(intentionally)"))
      else
        (* Set the action. *)
        let '(c, err) := Controller_SetAction c (rmControllerName route) (rmMethodName route) in
        match err with
        | Some err => ret (setResult c (Controller_NotFound c (errorText err)))
        | None =>
            (* Add the route and fixed params to the Request Params. *)
            let c := setParamsRoute c (rmParams route) in
            c ← bindFixed (rmAction route) 0 (rmFixedParams route) c;
            callNext c fc
        end
  end.

End Filter.

(** The fixed parameters of a controller, the nil map read as the empty one. *)
Definition fixedOf {Result} (c : Controller Result) : gmap string (list string) :=
  default ∅ (ParamsFixed c).

(** The line logged for the first fixed parameter beyond the arguments of a
    method, if there is one, in a match whose field [Action] is [action]. *)
Definition surplusWarning (action : string) (args values : list string) : list LogLine :=
  match drop (length args) values with
  | value :: _ =>
      [(WARN, ("Too many parameters to " ++ action ++ " trying to add " ++ value
               ++ newline)%string)]
  | [] => []
  end.

(** A framework for the examples: a result is its message, every action is
    registered with the argument names [args], and a filter returns the
    controller as it finds it. *)
Definition exampleFramework (args : list string) : Framework string unit :=
  {| Controller_SetAction := fun c _ _ =>
       ({| cRequest := cRequest c; cResult := cResult c; ParamsRoute := ParamsRoute c;
           ParamsFixed := ParamsFixed c; MethodArgs := args |}, None);
     Controller_NotFound := fun _ msg => msg;
     runFilter := fun _ c _ => ret c |}.

(** A controller for the request of [uri] with [method], nothing set. *)
Definition freshController (method uri : string) : Controller string :=
  {| cRequest := {| ReqMethod := method; URLPath := uri; RequestURI := uri |};
     cResult := None; ParamsRoute := ∅; ParamsFixed := None; MethodArgs := [] |}.

(** A routes document whose one route has two fixed parameters. *)
Definition fixedDoc : list YamlEntry :=
  [Some (list_to_map [("method", YString "GET"); ("path", YString "/users/:id");
                      ("action", YString "Users.Show");
                      ("params", YSeq [YString "full"; YString "json"])])].

(** * Theorems *)

(** ** The monad *)

Arguments bind {A B} f m : simpl never.
Arguments ret {A} a : simpl never.
Arguments panic {A} p : simpl never.
Arguments logPrint lvl msg : simpl never.
Arguments String.eqb : simpl never.

Ltac mfold := unfold mbind, mret, M_bind, M_ret in *.

Lemma bind_ret {A B} (a : A) (f : A -> M B) : bind f (ret a) = f a.
Proof. unfold bind, ret. destruct (f a). reflexivity. Qed.

Lemma bind_panic {A B} (p : PanicKind) (f : A -> M B) : bind f (panic p) = panic p.
Proof. reflexivity. Qed.

Lemma bind_log {B} (lvl : LogLevel) (msg : string) (f : unit -> M B) :
  bind f (logPrint lvl msg) = (let '(r, l) := f tt in (r, (lvl, msg) :: l)).
Proof. reflexivity. Qed.

Lemma bind_done {A B} (a : A) (l : list LogLine) (f : A -> M B) :
  bind f (Done a, l) = (let '(r, l') := f a in (r, l ++ l')).
Proof. reflexivity. Qed.

Lemma bind_done_nil {A B} (a : A) (f : A -> M B) : bind f (Done a, []) = f a.
Proof. apply bind_ret. Qed.

Lemma bind_panic_nil {A B} (p : PanicKind) (f : A -> M B) :
  bind f (Panic p, []) = (Panic p, []).
Proof. reflexivity. Qed.

Ltac mred := repeat (rewrite bind_ret || rewrite bind_done_nil
                     || rewrite bind_panic || rewrite bind_panic_nil).

(** ** Reverse *)

Lemma reverseLoop_winner (routes : list Route) (action c m : string)
    (argValues : MapRef) (h : Heap) (route : Route) :
  winner c m routes = Some route ->
  reverseLoop routes action c m argValues h
  = reverseWith route action c m (isPlaceholder (ControllerName route))
                (isPlaceholder (MethodName route)) argValues h.
Proof.
  unfold winner. induction routes as [|r routes IH]; simpl; [discriminate|].
  unfold reverseMatches at 1.
  destruct (String.eqb (ControllerName r) "" || String.eqb (MethodName r) "") eqn:He; simpl.
  - exact IH.
  - apply orb_false_iff in He as [Hc Hm].
    apply String.eqb_neq in Hc, Hm.
    assert (E1 : firstIsM (ControllerName r) ":" = ret (isPlaceholder (ControllerName r))).
    { unfold firstIsM, isPlaceholder. destruct (ControllerName r); [congruence|reflexivity]. }
    assert (E2 : firstIsM (MethodName r) ":" = ret (isPlaceholder (MethodName r))).
    { unfold firstIsM, isPlaceholder. destruct (MethodName r); [congruence|reflexivity]. }
    mfold. rewrite E1, bind_ret, E2, bind_ret.
    destruct (isPlaceholder (ControllerName r)) eqn:P1,
             (isPlaceholder (MethodName r)) eqn:P2; simpl;
      repeat match goal with
      | |- context [String.eqb ?a ?b] => destruct (String.eqb a b) eqn:?; simpl
      end;
      try exact IH; intros [= <-]; rewrite P1, P2; reflexivity.
Qed.

Lemma mapRead_delete_None (h : Heap) (argValues : MapRef) (k k' : string) :
  mapRead h argValues k = None ->
  mapRead (mapDelete h argValues k') argValues k = None.
Proof.
  destruct argValues as [l|]; [|reflexivity].
  unfold mapRead, mapDelete, deref. intros H. rewrite lookup_insert_eq.
  change (default ∅ (Some ?x)) with x.
  destruct (decide (k' = k)) as [->|Hne].
  - apply lookup_delete_eq.
  - rewrite lookup_delete_ne by assumption. exact H.
Qed.

Lemma pathArgNames_cons (el : string) (els : list string) :
  pathArgNames (el :: els)
  = if isPlaceholder el then tail el :: pathArgNames els else pathArgNames els.
Proof.
  unfold pathArgNames. rewrite filter_cons.
  destruct (isPlaceholder el); [rewrite decide_True by reflexivity|
                                rewrite decide_False by discriminate]; reflexivity.
Qed.

Lemma substPath_spec (argValues : MapRef) (pathElements : list string) (h : Heap) :
  exists els' log,
    substPath argValues pathElements h
    = (Done (els', foldl (fun h k => mapDelete h argValues k) h (pathArgNames pathElements)),
       log)
    /\ length els' = length pathElements
    /\ (forall i el, pathElements !! i = Some el -> isPlaceholder el = false ->
                     els' !! i = Some el)
    /\ (forall i el, pathElements !! i = Some el -> isPlaceholder el = true ->
                     mapRead h argValues (tail el) = None ->
                     els' !! i = Some "<nil>" /\ In (missingArgLine el) log).
Proof.
  revert h. induction pathElements as [|el els IH]; intros h.
  - exists [], []. split; [reflexivity|]. split; [reflexivity|].
    split; intros i el H; destruct i; discriminate.
  - simpl substPath. rewrite pathArgNames_cons.
    assert (Hdec : forall el' : string, isPlaceholder el' = true -> firstIs el' ":" = Some true).
    { intros el'. unfold isPlaceholder. destruct (firstIs el' ":") as [[|]|]; congruence. }
    unfold isPlaceholder at 1.
    destruct (firstIs el ":") as [[|]|] eqn:Hf.
    1: { (* a named segment *)
      simpl foldl.
      destruct (IH (mapDelete h argValues (tail el))) as (els' & log & E & Hlen & Hlit & Hmiss).
      mfold.
      destruct (mapRead h argValues (tail el)) as [val|] eqn:Hr.
      * rewrite bind_ret, E, bind_done. simpl. rewrite app_nil_r.
        exists (val :: els'), log.
        split; [reflexivity|]. split; [simpl; congruence|]. split.
        -- intros [|i] el' Hi Hn; simpl in *.
           ++ injection Hi as <-. unfold isPlaceholder in Hn. rewrite Hf in Hn. discriminate.
           ++ eauto.
        -- intros [|i] el' Hi Hy Hnone; simpl in *; [congruence|].
           apply (Hmiss i el' Hi Hy). apply mapRead_delete_None. assumption.
      * rewrite E. unfold bind, ret, logPrint. simpl. rewrite app_nil_r.
        exists ("<nil>" :: els'), (missingArgLine el :: log).
        split; [reflexivity|]. split; [simpl; congruence|]. split.
        -- intros [|i] el' Hi Hn; simpl in *.
           ++ injection Hi as <-. unfold isPlaceholder in Hn. rewrite Hf in Hn. discriminate.
           ++ eauto.
        -- intros [|i] el' Hi Hy Hnone; simpl in *.
           ++ injection Hi as <-. split; [reflexivity|]. left. reflexivity.
           ++ destruct (Hmiss i el' Hi Hy) as [H1 H2].
              { apply mapRead_delete_None. assumption. }
              split; [assumption|]. right. assumption. }
    all: destruct (IH h) as (els' & log & E & Hlen & Hlit & Hmiss);
      mfold; rewrite E, bind_done; simpl; rewrite app_nil_r;
      exists (el :: els'), log;
      (split; [reflexivity|]); (split; [simpl; congruence|]); split;
      [ intros [|i] el' Hi Hn; simpl in *; [congruence|]; eauto
      | intros [|i] el' Hi Hy Hnone; simpl in *;
        [ injection Hi as <-; apply Hdec in Hy; congruence | eauto ] ].
Qed.

Lemma mapWrite_some (h : Heap) (l : positive) (k v : string) :
  mapWrite h (Some l) k v = ret (heapWrite h (Some l) k v).
Proof. reflexivity. Qed.

Lemma reverseWith_done (route : Route) (action c m : string) (argValues : MapRef) (h : Heap) :
  (argValues = None ->
   isPlaceholder (ControllerName route) = false /\ isPlaceholder (MethodName route) = false) ->
  let hb := boundHeap route c m argValues h in
  let h' := consumedHeap (pathArgNames (Split (Path route) "/")) argValues hb in
  exists els' log,
    reverseWith route action c m (isPlaceholder (ControllerName route))
                (isPlaceholder (MethodName route)) argValues h
    = (Done (Some {| Host := "TODO";
                     adMethod := if String.eqb (Method route) "*" then "GET" else Method route;
                     Url := reverseUrl els' (mapContent h' argValues);
                     adAction := action;
                     Star := String.eqb (Method route) "*";
                     Args := argValues |}, h'), log)
    /\ length els' = length (Split (Path route) "/")
    /\ (forall i el, Split (Path route) "/" !! i = Some el -> isPlaceholder el = false ->
                     els' !! i = Some el)
    /\ (forall i el, Split (Path route) "/" !! i = Some el -> isPlaceholder el = true ->
                     mapRead hb argValues (tail el) = None ->
                     els' !! i = Some "<nil>" /\ In (missingArgLine el) log).
Proof.
  intros Hnil hb h'.
  destruct (substPath_spec argValues (Split (Path route) "/") hb)
    as (els' & log & E & Hlen & Hlit & Hmiss).
  exists els', log. split; [|auto].
  assert (Hw : bind (fun h0 =>
                 bind (fun h1 => bind (fun '(pathElements, h2) =>
                   ret (Some {| Host := "TODO";
                     adMethod := if String.eqb (Method route) "*" then "GET" else Method route;
                     Url := reverseUrl pathElements (mapContent h2 argValues);
                     adAction := action;
                     Star := String.eqb (Method route) "*";
                     Args := argValues |}, h2))
                   (substPath argValues (Split (Path route) "/") h1))
                 (if isPlaceholder (MethodName route)
                  then mapWrite h0 argValues (tail (MethodName route)) m else ret h0))
               (if isPlaceholder (ControllerName route)
                then mapWrite h argValues (tail (ControllerName route)) c else ret h)
             = bind (fun '(pathElements, h2) =>
                   ret (Some {| Host := "TODO";
                     adMethod := if String.eqb (Method route) "*" then "GET" else Method route;
                     Url := reverseUrl pathElements (mapContent h2 argValues);
                     adAction := action;
                     Star := String.eqb (Method route) "*";
                     Args := argValues |}, h2))
                   (substPath argValues (Split (Path route) "/") hb)).
  { subst hb. unfold boundHeap.
    destruct argValues as [l|].
    - destruct (isPlaceholder (ControllerName route)), (isPlaceholder (MethodName route));
        repeat (rewrite mapWrite_some || rewrite bind_ret); reflexivity.
    - destruct (Hnil eq_refl) as [-> ->]. rewrite !bind_ret. reflexivity. }
  etransitivity; [exact Hw|].
  rewrite E, bind_done. simpl. rewrite app_nil_r. reflexivity.
Qed.

Lemma mapRead_content (h : Heap) (argValues : MapRef) (k : string) :
  mapRead h argValues k = mapContent h argValues !! k.
Proof. destruct argValues; reflexivity. Qed.

Lemma deref_insert (h : Heap) (l : positive) (m : gmap string string) :
  deref (<[l := m]> h) l = m.
Proof. unfold deref. rewrite lookup_insert_eq. reflexivity. Qed.

Lemma heapWrite_alloc (h : Heap) (l : positive) (m0 : gmap string string) (k v : string) :
  h !! l = Some m0 -> heapWrite h (Some l) k v = <[l := <[k := v]> m0]> h.
Proof. intros H. unfold heapWrite, deref. rewrite H. reflexivity. Qed.

Lemma boundHeap_alloc (route : Route) (c m : string) (l : positive) (h : Heap)
    (m0 : gmap string string) :
  h !! l = Some m0 ->
  boundHeap route c m (Some l) h = <[l := boundArgs route c m m0]> h.
Proof.
  intros H. unfold boundHeap, boundArgs.
  destruct (isPlaceholder (ControllerName route)), (isPlaceholder (MethodName route)).
  - rewrite (heapWrite_alloc h l m0) by assumption.
    erewrite heapWrite_alloc by apply lookup_insert_eq.
    apply insert_insert_eq.
  - apply heapWrite_alloc. assumption.
  - apply heapWrite_alloc. assumption.
  - symmetry. apply insert_id. assumption.
Qed.

Lemma consumedHeap_alloc (names : list string) (l : positive) (h : Heap)
    (m0 : gmap string string) :
  h !! l = Some m0 ->
  consumedHeap names (Some l) h = <[l := consumed names m0]> h.
Proof.
  unfold consumedHeap, consumed. revert h m0.
  induction names as [|k names IH]; intros h m0 H; simpl.
  - symmetry. apply insert_id. assumption.
  - rewrite (IH _ (delete k m0)).
    + apply insert_insert_eq.
    + unfold deref. rewrite H. apply lookup_insert_eq.
Qed.

Lemma mapContent_boundHeap (route : Route) (c m : string) (argValues : MapRef) (h : Heap) :
  (argValues = None ->
   isPlaceholder (ControllerName route) = false /\ isPlaceholder (MethodName route) = false) ->
  mapContent (boundHeap route c m argValues h) argValues
  = boundArgs route c m (mapContent h argValues).
Proof.
  intros Hnil. unfold boundHeap, boundArgs. destruct argValues as [l|].
  - destruct (isPlaceholder (ControllerName route)), (isPlaceholder (MethodName route));
      unfold mapContent, heapWrite; rewrite ?deref_insert; reflexivity.
  - destruct (Hnil eq_refl) as [-> ->]. reflexivity.
Qed.

Lemma consumed_lookup_in (names : list string) (m : gmap string string) (k : string) :
  In k names -> consumed names m !! k = None.
Proof.
  unfold consumed. revert m. induction names as [|k' names IH]; intros m; simpl; [tauto|].
  intros [->|Hin]; [|auto].
  clear IH. generalize (lookup_delete_eq m k). generalize (delete k m).
  induction names as [|k' names IH]; intros m' H; simpl; [assumption|].
  apply IH. destruct (decide (k' = k)) as [->|Hne].
  - apply lookup_delete_eq.
  - rewrite lookup_delete_ne by assumption. assumption.
Qed.

Lemma consumed_lookup_notin (names : list string) (m : gmap string string) (k : string) :
  ~ In k names -> consumed names m !! k = m !! k.
Proof.
  unfold consumed. revert m. induction names as [|k' names IH]; intros m Hn; simpl; [reflexivity|].
  rewrite IH by (simpl in Hn; tauto).
  apply lookup_delete_ne. simpl in Hn. intros ->. tauto.
Qed.

(** ** The claims about [Reverse] *)

(** C7, as the code has it.  In [Reverse], when the argument map is not nil
    or the winning route has no placeholder for its controller or its method,
    a [:name] segment of the path whose argument is not in the argument map
    (after the placeholders of the action are bound) is replaced by the
    visible value [<nil>] and an error line is logged; the call still returns
    an [ActionDefinition] whose URL is made of the substituted segments. *)
Theorem reverse_missing_arg_placeholder {Node} (router : Router Node)
    (action c m : string) (argValues : MapRef) (h : Heap) (route : Route) :
  Split action "." = [c; m] ->
  winner c m (Routes router) = Some route ->
  (argValues = None ->
   isPlaceholder (ControllerName route) = false /\ isPlaceholder (MethodName route) = false) ->
  exists ad h' log els',
    Router_Reverse router action argValues h = (Done (Some ad, h'), log)
    /\ Url ad = reverseUrl els' (mapContent h' argValues)
    /\ length els' = length (Split (Path route) "/")
    /\ forall i el,
         Split (Path route) "/" !! i = Some el ->
         isPlaceholder el = true ->
         boundArgs route c m (mapContent h argValues) !! tail el = None ->
         els' !! i = Some "<nil>"
         /\ In (ERROR, ("revel/router: reverse route missing route arg " ++ tail el)%string) log.
Proof.
  intros Hs Hw Hnil. unfold Router_Reverse. rewrite Hs.
  rewrite (reverseLoop_winner _ _ _ _ _ _ _ Hw).
  destruct (reverseWith_done route action c m argValues h Hnil)
    as (els' & log & E & Hlen & _ & Hmiss).
  eexists _, _, log, els'. split; [exact E|]. split; [reflexivity|]. split; [assumption|].
  intros i el Hi Hp Habs. apply (Hmiss i el Hi Hp).
  rewrite mapRead_content, mapContent_boundHeap by assumption. assumption.
Qed.

(** C8, as the code has it.  In [Reverse], when the argument map is not nil
    or the winning route has no placeholder for its controller or its method,
    a winning route declared with method [*] gives the method [GET] with the
    flag [Star] set; a winning route with any other declared method gives
    that method with the flag unset. *)
Theorem reverse_star_flag {Node} (router : Router Node)
    (action c m : string) (argValues : MapRef) (h : Heap) (route : Route) :
  Split action "." = [c; m] ->
  winner c m (Routes router) = Some route ->
  (argValues = None ->
   isPlaceholder (ControllerName route) = false /\ isPlaceholder (MethodName route) = false) ->
  exists ad h' log,
    Router_Reverse router action argValues h = (Done (Some ad, h'), log)
    /\ (Method route = "*" -> adMethod ad = "GET" /\ Star ad = true)
    /\ (Method route <> "*" -> adMethod ad = Method route /\ Star ad = false).
Proof.
  intros Hs Hw Hnil. unfold Router_Reverse. rewrite Hs.
  rewrite (reverseLoop_winner _ _ _ _ _ _ _ Hw).
  destruct (reverseWith_done route action c m argValues h Hnil) as (els' & log & E & _).
  eexists _, _, log. split; [exact E|]. simpl. split.
  - intros ->. split; reflexivity.
  - intros Hne. apply String.eqb_neq in Hne. rewrite Hne. split; reflexivity.
Qed.

(** C9. [Reverse] works on the caller's map itself: after a call that finds a
    route, the map at the caller's reference holds the bindings of the
    placeholders of the action and has lost every name consumed by a path
    segment, no other map of the heap has changed, and the field [Args] of
    the result is the caller's reference. *)
Theorem reverse_mutates_caller_map {Node} (router : Router Node)
    (action c m : string) (l : positive) (h : Heap) (m0 : gmap string string)
    (route : Route) :
  Split action "." = [c; m] ->
  winner c m (Routes router) = Some route ->
  h !! l = Some m0 ->
  let final := consumed (pathArgNames (Split (Path route) "/")) (boundArgs route c m m0) in
  exists ad log,
    Router_Reverse router action (Some l) h = (Done (Some ad, <[l := final]> h), log)
    /\ Args ad = Some l
    /\ (forall el, In el (Split (Path route) "/") -> isPlaceholder el = true ->
                   final !! tail el = None)
    /\ (forall k, ~ In k (pathArgNames (Split (Path route) "/")) ->
                  final !! k = boundArgs route c m m0 !! k).
Proof.
  intros Hs Hw Hl final. unfold Router_Reverse. rewrite Hs.
  rewrite (reverseLoop_winner _ _ _ _ _ _ _ Hw).
  destruct (reverseWith_done route action c m (Some l) h) as (els' & log & E & _);
    [discriminate|].
  rewrite (boundHeap_alloc _ _ _ _ _ _ Hl) in E.
  rewrite (consumedHeap_alloc _ _ _ (boundArgs route c m m0)) in E
    by apply lookup_insert_eq.
  rewrite insert_insert_eq in E.
  eexists _, log. split; [exact E|]. split; [reflexivity|]. split.
  - intros el Hin Hp. apply consumed_lookup_in. unfold pathArgNames.
    apply in_map. apply list_elem_of_In. apply list_elem_of_filter. split; [assumption|].
    apply list_elem_of_In. assumption.
  - intros k Hk. apply consumed_lookup_notin. assumption.
Qed.

(** ** The parser, entry by entry *)

Section ParserFacts.
Context `{env : Env}.
Variable getModuleRoutes : string -> string -> bool -> M (list Route * option Error).
Variables (routesPath content : string) (validate : bool).

Lemma routeError_plain (msg rp c : string) (l : Z) :
  exists e log,
    routeError (PlainError msg) rp c l = (Done e, log)
    /\ Title e = "Route validation error"
    /\ Description e = msg /\ ErrPath e = rp /\ ErrLine e = l.
Proof.
  unfold routeError. mfold.
  destruct (String.eqb c ""); [destruct (ReadFile rp)|];
    unfold bind, ret, logPrint; simpl;
    eexists _, _; (split; [reflexivity|]); repeat split; reflexivity.
Qed.

Lemma paramStrings_ok (vals : list YamlValue) (ss acc : list string) :
  stringsOf vals = Some ss -> paramStrings vals acc = ret (acc ++ ss).
Proof.
  revert ss acc. induction vals as [|v vals IH]; intros ss acc; simpl.
  - intros [= <-]. rewrite app_nil_r. reflexivity.
  - destruct v; try discriminate.
    destruct (stringsOf vals) as [ss'|]; [|discriminate]. intros [= <-].
    simpl. mfold. mred. rewrite (IH ss') by reflexivity.
    rewrite <- app_assoc. reflexivity.
Qed.

Lemma paramStrings_panic (vals : list YamlValue) (acc : list string) :
  stringsOf vals = None -> paramStrings vals acc = panic TypeAssertion.
Proof.
  revert acc. induction vals as [|v vals IH]; intros acc; simpl; [discriminate|].
  destruct v; try reflexivity.
  destruct (stringsOf vals) as [ss'|]; [discriminate|]. intros _.
  simpl. mfold. mred. apply IH. reflexivity.
Qed.

(** What the loop does with an entry that names no module and has its
    three required keys. *)
Lemma parseEntry_route (st : ParseState) (route : gmap string YamlValue) :
  importName route = None ->
  missingOption route = None ->
  parseEntry getModuleRoutes routesPath content validate st (Some route)
  = (params ← match route !! "params" with
              | Some (YSeq vals) => paramStrings vals []
              | Some _ => panic TypeAssertion
              | None => ret []
              end;
     method ← assertString (default YNull (route !! "method"));
     if negb (routeMethodPattern_MatchString method) then
       e ← routeError (PlainError ("Unknown route method " ++ dquote ++ method ++ dquote))
                      routesPath content 0;
       ret (inr e)
     else
       path ← assertString (default YNull (route !! "path"));
       action ← assertString (default YNull (route !! "action"));
       route ← NewRoute method path action routesPath params;
       verr ← (if validate then validateRoute route else ret None);
       match verr with
       | Some err => e ← routeError err routesPath content 0; ret (inr e)
       | None => ret (inl {| psJoinedPath := psJoinedPath st;
                             psRoutes := psRoutes st ++ [route] |})
       end).
Proof.
  intros Hi Hm. unfold parseEntry, importName in *. rewrite Hm.
  destruct (route !! "import") as [[]|]; try reflexivity. discriminate.
Qed.

Lemma parseEntry_missing (st : ParseState) (route : gmap string YamlValue) (key : string) :
  importName route = None ->
  missingOption route = Some key ->
  parseEntry getModuleRoutes routesPath content validate st (Some route)
  = (e ← routeError (PlainError (missingOptionMessage key)) routesPath content 0;
     ret (inr e)).
Proof.
  intros Hi Hm. unfold parseEntry, importName in *. rewrite Hm.
  destruct (route !! "import") as [[]|]; try reflexivity. discriminate.
Qed.

(** A well-typed entry with a known method: the route is built, validated
    when asked, and appended. *)
Lemma parseEntry_typed (st : ParseState) (route : gmap string YamlValue)
    (params : list string) (method path action : string) :
  importName route = None ->
  fixedParamsOf route = Some params ->
  stringAt route "method" = Some method ->
  stringAt route "path" = Some path ->
  stringAt route "action" = Some action ->
  routeMethodPattern_MatchString method = true ->
  parseEntry getModuleRoutes routesPath content validate st (Some route)
  = (route ← NewRoute method path action routesPath params;
     verr ← (if validate then validateRoute route else ret None);
     match verr with
     | Some err => e ← routeError err routesPath content 0; ret (inr e)
     | None => ret (inl {| psJoinedPath := psJoinedPath st;
                           psRoutes := psRoutes st ++ [route] |})
     end).
Proof.
  intros Hi Hp Hm Hpa Ha Hv. rewrite parseEntry_route; [|assumption|].
  - unfold fixedParamsOf, stringAt in *.
    destruct (route !! "method") as [[]|]; try discriminate. injection Hm as ->.
    destruct (route !! "path") as [[]|]; try discriminate. injection Hpa as ->.
    destruct (route !! "action") as [[]|]; try discriminate. injection Ha as ->.
    assert (E : match route !! "params" with
                | Some (YSeq vals) => paramStrings vals []
                | Some _ => panic TypeAssertion
                | None => ret []
                end = ret params).
    { destruct (route !! "params") as [[]|]; try discriminate.
      - rewrite (paramStrings_ok _ params) by assumption. reflexivity.
      - injection Hp as <-. reflexivity. }
    rewrite E. mfold. simpl. mred. rewrite Hv. simpl. mred. reflexivity.
  - unfold missingOption, requiredRouteOptions, stringAt in *. simpl.
    destruct (route !! "method"); [|discriminate].
    destruct (route !! "path"); [|discriminate].
    destruct (route !! "action"); [|discriminate].
    rewrite !bool_decide_eq_false_2 by discriminate. reflexivity.
Qed.

End ParserFacts.

(** ** The claims about route construction and parsing *)

Import Examples.


Lemma NewRoute_relative (method path action rp : string) (fixedArgs : list string) :
  HasPrefix path "/" = false ->
  NewRoute method path action rp fixedArgs
  = (Done {| Method := ToUpper method; Path := path; Action := action;
             ControllerName := ""; MethodName := "";
             FixedParams := fixedArgs;
             TreePath := treePath (ToUpper method) path;
             routesPath := rp; line := 0 |},
     [(ERROR, "Absolute URL required.")]).
Proof. intros H. unfold NewRoute. simpl. rewrite H. reflexivity. Qed.


(** C2, as the code has it.  A path without a leading slash is logged
    ([Absolute URL required.]) and the route is still returned, with empty
    controller and method names; the parser appends it and goes on to the
    next entry unless the validation of its action fails. *)
Theorem relative_path_route_kept `{env : Env}
    (getModuleRoutes : string -> string -> bool -> M (list Route * option Error))
    (rp content : string) (validate : bool) (st : ParseState)
    (route : gmap string YamlValue) (params : list string) (method path action : string) :
  importName route = None ->
  fixedParamsOf route = Some params ->
  stringAt route "method" = Some method ->
  stringAt route "path" = Some path ->
  stringAt route "action" = Some action ->
  routeMethodPattern_MatchString method = true ->
  HasPrefix path "/" = false ->
  let r := {| Method := ToUpper method; Path := path; Action := action;
              ControllerName := ""; MethodName := "";
              FixedParams := params;
              TreePath := treePath (ToUpper method) path;
              routesPath := rp; line := 0 |} in
  NewRoute method path action rp params = (Done r, [(ERROR, "Absolute URL required.")])
  /\ ((if validate then validateRoute r else ret None) = ret None ->
      parseEntry getModuleRoutes rp content validate st (Some route)
      = (Done (inl {| psJoinedPath := psJoinedPath st; psRoutes := psRoutes st ++ [r] |}),
         [(ERROR, "Absolute URL required.")])).
Proof.
  intros Hi Hp Hm Hpa Ha Hv Hrel r.
  split; [apply NewRoute_relative; assumption|].
  intros Hval.
  rewrite (parseEntry_typed _ _ _ _ _ _ params method path action) by assumption.
  rewrite NewRoute_relative by assumption. mfold. rewrite bind_done.
  fold r. rewrite Hval. mred. reflexivity.
Qed.

Lemma relative_path_route_kept_witness :
  NewRoute "GET" "users" "404" routesFile []
  = (Done {| Method := "GET"; Path := "users"; Action := "404";
             ControllerName := ""; MethodName := ""; FixedParams := [];
             TreePath := "/GETusers"; routesPath := routesFile; line := 0 |},
     [(ERROR, "Absolute URL required.")])
  /\ parseEntry (env := envOf []) (fun _ _ _ => ret ([], None)) routesFile "routes" true
                {| psJoinedPath := ""; psRoutes := [] |} (Some relativeEntry)
     = (Done (inl {| psJoinedPath := "";
                     psRoutes := [{| Method := "GET"; Path := "users"; Action := "404";
                                     ControllerName := ""; MethodName := "";
                                     FixedParams := [];
                                     TreePath := "/GETusers"; routesPath := routesFile;
                                     line := 0 |}] |}),
        [(ERROR, "Absolute URL required.")]).
Proof.
  destruct (relative_path_route_kept (env := envOf []) (fun _ _ _ => ret ([], None))
              routesFile "routes" true {| psJoinedPath := ""; psRoutes := [] |}
              relativeEntry [] "GET" "users" "404") as [H1 H2];
    try (vm_compute; reflexivity).
  split; [exact H1|]. apply H2. vm_compute. reflexivity.
Defined.

(** C2, as stated, fails: a route is built from the path [users], and a
    refresh of a document with that entry returns no error and keeps the
    route. *)
Lemma relative_path_not_rejected :
  exists route r log,
    NewRoute "GET" "users" "404" routesFile [] = (Done route, [(ERROR, "Absolute URL required.")])
    /\ HasPrefix (Path route) "/" = false
    /\ loaded [Some relativeEntry] = (Done (r, None), log)
    /\ Routes r = [route].
Proof. eexists _, _, _. repeat split; vm_compute; reflexivity. Qed.

(** C3.  A placeholder of the action is replaced by the captured argument of
    that name; when no argument of that name was captured, the lookup
    [params[name][0]] panics.  The second part is what happens on the
    document [GET /x :controller.Index], which a validating refresh accepts,
    at the request [GET /x]. *)
Theorem route_placeholder_capture :
  (forall (params : gmap string (list string)) (name v : string) (vs : list string),
      isPlaceholder name = true -> params !! tail name = Some (v :: vs) ->
      resolveName params name = ret v)
  /\ (forall (params : gmap string (list string)) (name : string),
      isPlaceholder name = true -> params !! tail name = None ->
      resolveName params name = panic IndexOutOfRange)
  /\ (exists r log,
        loaded [Some uncapturedEntry] = (Done (r, None), log)
        /\ Router_Route r "GET" "/x" = (Panic IndexOutOfRange, [])).
Proof.
  split; [|split].
  - intros params name v vs Hp Hl. unfold resolveName, firstIsM.
    unfold isPlaceholder in Hp. destruct (firstIs name ":") as [[|]|]; try discriminate.
    mfold. mred. rewrite Hl. reflexivity.
  - intros params name Hp Hl. unfold resolveName, firstIsM.
    unfold isPlaceholder in Hp. destruct (firstIs name ":") as [[|]|]; try discriminate.
    mfold. mred. rewrite Hl. reflexivity.
  - eexists _, _. split; vm_compute; reflexivity.
Qed.




Lemma parseLoop_cons `{env : Env}
    (getModuleRoutes : string -> string -> bool -> M (list Route * option Error))
    (rp content : string) (validate : bool) (st : ParseState)
    (entry : YamlEntry) (entries : list YamlEntry) :
  parseLoop getModuleRoutes rp content validate st (entry :: entries)
  = bind (fun r => match r with
                   | inl st' => parseLoop getModuleRoutes rp content validate st' entries
                   | inr e => ret ([], Some e)
                   end)
         (parseEntry getModuleRoutes rp content validate st entry).
Proof. reflexivity. Qed.

Lemma missingOption_spec (route : gmap string YamlValue) (key : string) :
  missingOption route = Some key ->
  In key requiredRouteOptions /\ route !! key = None.
Proof.
  unfold missingOption. intros H. apply find_some in H as [Hin Hb].
  split; [assumption|]. apply bool_decide_eq_true in Hb. assumption.
Qed.

Lemma missingOption_some (route : gmap string YamlValue) (key : string) :
  In key requiredRouteOptions -> route !! key = None ->
  exists key', missingOption route = Some key'.
Proof.
  intros Hin Hn. destruct (missingOption route) as [k|] eqn:E; [eauto|].
  unfold missingOption in E.
  pose proof (find_none _ _ E key Hin) as Hf. simpl in Hf.
  apply bool_decide_eq_false in Hf. contradiction.
Qed.

(** C6.  When the loop reaches an entry that is not an import and lacks a
    required key, [parseRoutes] returns the error [Missing required route
    option] naming a required key that the entry lacks (the first one in the
    order method, path, action) and no routes; an entry that lacks only
    [action] is reported with [action]; an entry with the three keys and no
    [params] is parsed without error, with no fixed parameters. *)
Theorem missing_route_option `{env : Env}
    (getModuleRoutes : string -> string -> bool -> M (list Route * option Error))
    (rp content : string) (validate : bool) (st : ParseState) (rest : list YamlEntry) :
  (forall (route : gmap string YamlValue) (key : string),
      importName route = None ->
      In key requiredRouteOptions -> route !! key = None ->
      exists key' e log,
        In key' requiredRouteOptions /\ route !! key' = None
        /\ missingOption route = Some key'
        /\ parseLoop getModuleRoutes rp content validate st (Some route :: rest)
           = (Done ([], Some e), log)
        /\ Title e = "Route validation error"
        /\ Description e = missingOptionMessage key')
  /\ (forall (route : gmap string YamlValue),
      importName route = None ->
      route !! "method" <> None -> route !! "path" <> None -> route !! "action" = None ->
      exists e log,
        parseLoop getModuleRoutes rp content validate st (Some route :: rest)
        = (Done ([], Some e), log)
        /\ Description e = missingOptionMessage "action")
  /\ (forall (route : gmap string YamlValue) (method path action : string),
      importName route = None ->
      stringAt route "method" = Some method ->
      stringAt route "path" = Some path ->
      stringAt route "action" = Some action ->
      route !! "params" = None ->
      routeMethodPattern_MatchString method = true ->
      exists r log,
        NewRoute method path action rp [] = (Done r, log)
        /\ FixedParams r = []
        /\ ((if validate then validateRoute r else ret None) = ret None ->
            parseEntry getModuleRoutes rp content validate st (Some route)
            = (Done (inl {| psJoinedPath := psJoinedPath st;
                            psRoutes := psRoutes st ++ [r] |}), log))).
Proof.
  assert (Hfail : forall route key',
             importName route = None -> missingOption route = Some key' ->
             exists e log,
               parseLoop getModuleRoutes rp content validate st (Some route :: rest)
               = (Done ([], Some e), log)
               /\ Title e = "Route validation error"
               /\ Description e = missingOptionMessage key').
  { intros route key' Hi Hm. rewrite parseLoop_cons.
    rewrite (parseEntry_missing _ _ _ _ _ _ key') by assumption.
    destruct (routeError_plain (missingOptionMessage key') rp content 0)
      as (e & log & E & Ht & Hd & _).
    mfold. rewrite E, !bind_done. simpl. mred. simpl.
    eexists _, _. split; [reflexivity|]. split; assumption. }
  split; [|split].
  - intros route key Hi Hin Hn.
    destruct (missingOption_some route key Hin Hn) as [key' Hk].
    destruct (missingOption_spec route key' Hk) as [Hin' Hn'].
    destruct (Hfail route key' Hi Hk) as (e & log & E & Ht & Hd).
    exists key', e, log. repeat split; assumption.
  - intros route Hi Hm Hp Ha.
    assert (Hk : missingOption route = Some "action").
    { unfold missingOption, requiredRouteOptions. simpl.
      rewrite (bool_decide_eq_false_2 _ Hm), (bool_decide_eq_false_2 _ Hp).
      rewrite (bool_decide_eq_true_2 _ Ha). reflexivity. }
    destruct (Hfail route "action" Hi Hk) as (e & log & E & _ & Hd).
    exists e, log. split; assumption.
  - intros route method path action Hi Hm Hp Ha Hpar Hv.
    assert (Hf : fixedParamsOf route = Some []).
    { unfold fixedParamsOf. rewrite Hpar. reflexivity. }
    destruct (NewRoute method path action rp []) as [[r| |] log] eqn:E.
    + exists r, log. split; [reflexivity|]. split.
      * unfold NewRoute in E. simpl in E.
        destruct (HasPrefix path "/"); simpl in E.
        -- destruct (Split action ".") as [|p0 [|p1 [|p2 ps]]];
             injection E as <- _; reflexivity.
        -- injection E as <- _. reflexivity.
      * intros Hval.
        rewrite (parseEntry_typed _ _ _ _ _ _ [] method path action) by assumption.
        rewrite E. mfold. rewrite bind_done, Hval. mred. unfold ret. rewrite app_nil_r. reflexivity.
    + exfalso. unfold NewRoute in E. simpl in E.
      destruct (HasPrefix path "/"); simpl in E; [|discriminate].
      destruct (Split action ".") as [|p0 [|p1 [|p2 ps]]]; discriminate.
    + exfalso. unfold NewRoute in E. simpl in E.
      destruct (HasPrefix path "/"); simpl in E; [|discriminate].
      destruct (Split action ".") as [|p0 [|p1 [|p2 ps]]]; discriminate.
Qed.

Lemma missing_route_option_witness :
  (exists e log,
      parseLoop (env := envOf []) (fun _ _ _ => ret ([], None)) routesFile "routes" true
                {| psJoinedPath := ""; psRoutes := [] |} [Some noActionEntry]
      = (Done ([], Some e), log)
      /\ Description e = missingOptionMessage "action")
  /\ (exists r log,
        NewRoute "GET" "/users/:id" "Users.Show" routesFile [] = (Done r, log)
        /\ FixedParams r = []
        /\ parseEntry (env := envOf []) (fun _ _ _ => ret ([], None)) routesFile "routes" true
                      {| psJoinedPath := ""; psRoutes := [] |} (Some usersEntry)
           = (Done (inl {| psJoinedPath := ""; psRoutes := [r] |}), log)).
Proof.
  destruct (missing_route_option (env := envOf []) (fun _ _ _ => ret ([], None))
              routesFile "routes" true {| psJoinedPath := ""; psRoutes := [] |} [])
    as (_ & H2 & H3).
  split.
  - apply (H2 noActionEntry); vm_compute; (reflexivity || discriminate).
  - assert (Hi : importName usersEntry = None) by (vm_compute; reflexivity).
    assert (Hm : stringAt usersEntry "method" = Some "GET") by (vm_compute; reflexivity).
    assert (Hp' : stringAt usersEntry "path" = Some "/users/:id") by (vm_compute; reflexivity).
    assert (Ha : stringAt usersEntry "action" = Some "Users.Show")
      by (vm_compute; reflexivity).
    assert (Hn : usersEntry !! "params" = None) by (vm_compute; reflexivity).
    assert (Hv : routeMethodPattern_MatchString "GET" = true) by (vm_compute; reflexivity).
    destruct (H3 usersEntry "GET" "/users/:id" "Users.Show" Hi Hm Hp' Ha Hn Hv)
      as (r & log & E & Hf & Hp).
    exists r, log. split; [exact E|]. split; [exact Hf|]. apply Hp.
    vm_compute in E. injection E as <- <-. vm_compute. reflexivity.
Defined.

(** C10.  An entry that is not an import and has its three required keys
    makes [parseRoutes] panic on a type assertion when [params] is present and
    is not a sequence of strings, when [method] is not a string, and, for a
    known method, when [path] or [action] is not a string. *)
Theorem ill_typed_entry_panics `{env : Env}
    (getModuleRoutes : string -> string -> bool -> M (list Route * option Error))
    (rp content : string) (validate : bool) (st : ParseState) (rest : list YamlEntry)
    (route : gmap string YamlValue) :
  importName route = None ->
  missingOption route = None ->
  let crash := parseLoop getModuleRoutes rp content validate st (Some route :: rest)
               = (Panic TypeAssertion, []) in
  (fixedParamsOf route = None -> crash)
  /\ (forall params, fixedParamsOf route = Some params ->
        stringAt route "method" = None -> crash)
  /\ (forall params method, fixedParamsOf route = Some params ->
        stringAt route "method" = Some method ->
        routeMethodPattern_MatchString method = true ->
        stringAt route "path" = None -> crash)
  /\ (forall params method path, fixedParamsOf route = Some params ->
        stringAt route "method" = Some method ->
        routeMethodPattern_MatchString method = true ->
        stringAt route "path" = Some path ->
        stringAt route "action" = None -> crash).
Proof.
  intros Hi Hm crash. subst crash. rewrite parseLoop_cons.
  rewrite parseEntry_route by assumption.
  assert (Hpar : forall params, fixedParamsOf route = Some params ->
            match route !! "params" with
            | Some (YSeq vals) => paramStrings vals []
            | Some _ => panic TypeAssertion
            | None => ret []
            end = ret params).
  { intros params. unfold fixedParamsOf.
    destruct (route !! "params") as [[]|]; try discriminate.
    - intros H. rewrite (paramStrings_ok _ params) by assumption. reflexivity.
    - intros [= <-]. reflexivity. }
  assert (Hstr : forall key s, stringAt route key = Some s ->
            assertString (default YNull (route !! key)) = ret s).
  { intros key s. unfold stringAt.
    destruct (route !! key) as [[]|]; try discriminate. intros [= <-]. reflexivity. }
  assert (Hnot : forall key, stringAt route key = None ->
            assertString (default YNull (route !! key)) = panic TypeAssertion).
  { intros key. unfold stringAt.
    destruct (route !! key) as [[]|]; try discriminate; reflexivity. }
  mfold. split; [|split; [|split]].
  - unfold fixedParamsOf. intros Hf.
    destruct (route !! "params") as [[]|]; try discriminate; try reflexivity.
    rewrite paramStrings_panic by assumption. reflexivity.
  - intros params Hf Hme. rewrite (Hpar _ Hf), (Hnot _ Hme). mred. reflexivity.
  - intros params method Hf Hme Hv Hpa.
    rewrite (Hpar _ Hf), (Hstr _ _ Hme). mred. rewrite Hv. simpl.
    rewrite (Hnot _ Hpa). mred. reflexivity.
  - intros params method path Hf Hme Hv Hpa Ha.
    rewrite (Hpar _ Hf), (Hstr _ _ Hme). mred. rewrite Hv. simpl.
    rewrite (Hstr _ _ Hpa). mred. rewrite (Hnot _ Ha). mred. reflexivity.
Qed.

Lemma ill_typed_entry_panics_witness :
  parseLoop (env := envOf []) (fun _ _ _ => ret ([], None)) routesFile "routes" true
            {| psJoinedPath := ""; psRoutes := [] |} [Some numberMethodEntry]
  = (Panic TypeAssertion, []).
Proof.
  assert (Hi : importName numberMethodEntry = None) by (vm_compute; reflexivity).
  assert (Hm : missingOption numberMethodEntry = None) by (vm_compute; reflexivity).
  destruct (ill_typed_entry_panics (env := envOf []) (fun _ _ _ => ret ([], None))
              routesFile "routes" true {| psJoinedPath := ""; psRoutes := [] |} []
              numberMethodEntry Hi Hm) as (_ & H & _).
  apply (H []); vm_compute; reflexivity.
Defined.

(** ** Reverse routing on the example documents *)

Lemma reverse_missing_arg_placeholder_witness :
  exists ad h' log els',
    Router_Reverse (routerOf goodDoc) "Users.Show" None ∅ = (Done (Some ad, h'), log)
    /\ Url ad = reverseUrl els' (mapContent h' None)
    /\ length els' = 3
    /\ els' !! 2 = Some "<nil>"
    /\ In (ERROR, "revel/router: reverse route missing route arg id") log.
Proof.
  assert (Hs : Split "Users.Show" "." = ["Users"; "Show"]) by reflexivity.
  assert (Hw : winner "Users" "Show" (Routes (routerOf goodDoc))
               = Some {| Method := "GET"; Path := "/users/:id"; Action := "Users.Show";
                         ControllerName := "Users"; MethodName := "Show";
                         FixedParams := []; TreePath := "/GET/users/:id";
                         routesPath := routesFile; line := 0 |})
    by (vm_compute; reflexivity).
  destruct (reverse_missing_arg_placeholder (routerOf goodDoc) "Users.Show" "Users" "Show"
              None ∅ _ Hs Hw) as (ad & h' & log & els' & E & Hu & Hlen & Hmiss).
  { intros _. split; reflexivity. }
  exists ad, h', log, els'. split; [exact E|]. split; [exact Hu|]. split; [exact Hlen|].
  apply (Hmiss 2 ":id"); reflexivity.
Defined.

Lemma reverse_star_flag_witness :
  exists ad h' log,
    Router_Reverse (routerOf goodDoc) "Health.Ping" None ∅ = (Done (Some ad, h'), log)
    /\ adMethod ad = "GET" /\ Star ad = true.
Proof.
  assert (Hs : Split "Health.Ping" "." = ["Health"; "Ping"]) by reflexivity.
  assert (Hw : winner "Health" "Ping" (Routes (routerOf goodDoc))
               = Some {| Method := "*"; Path := "/ping"; Action := "Health.Ping";
                         ControllerName := "Health"; MethodName := "Ping";
                         FixedParams := []; TreePath := "/:METHOD/ping";
                         routesPath := routesFile; line := 0 |})
    by (vm_compute; reflexivity).
  destruct (reverse_star_flag (routerOf goodDoc) "Health.Ping" "Health" "Ping"
              None ∅ _ Hs Hw) as (ad & h' & log & E & Hstar & _).
  { intros _. split; reflexivity. }
  exists ad, h', log. split; [exact E|]. apply Hstar. reflexivity.
Defined.

(** C7, as stated, fails: after a validating refresh the route of
    [placeholderDoc] wins the scan for [Users.Show]; its path has the segment
    [:id], whose argument the nil map does not hold, and the call does not
    return a URL with a visible value in it: it panics on the write that
    binds the controller, with nothing logged. *)
Lemma reverse_nil_map_no_best_effort_url :
  exists r route,
    loaded placeholderDoc = (Done (r, None), [])
    /\ winner "Users" "Show" (Routes r) = Some route
    /\ Split (Path route) "/" !! 2 = Some ":id"
    /\ boundArgs route "Users" "Show" (mapContent ∅ None) !! "id" = None
    /\ Router_Reverse r "Users.Show" None ∅ = (Panic NilMapWrite, []).
Proof.
  eexists _, _.
  split; [vm_compute; reflexivity|].
  split; [vm_compute; reflexivity|].
  split; [vm_compute; reflexivity|].
  split; vm_compute; reflexivity.
Qed.

(** C8, as stated, fails: the route of [placeholderDoc] is declared with the
    method [*] and wins the scan for [Users.Show], yet with the nil map the
    call returns no [ActionDefinition], with [GET] and the flag or without:
    it panics.  With a map the same call gives [GET] and the flag. *)
Lemma reverse_star_route_nil_map_panics :
  exists r route ad h log,
    loaded placeholderDoc = (Done (r, None), [])
    /\ winner "Users" "Show" (Routes r) = Some route
    /\ Method route = "*"
    /\ fst (Router_Reverse r "Users.Show" None ∅) = Panic NilMapWrite
    /\ Router_Reverse r "Users.Show" (Some 1%positive) {[ 1%positive := ∅ ]}
       = (Done (Some ad, h), log)
    /\ adMethod ad = "GET" /\ Star ad = true.
Proof.
  eexists _, _, _, _, _.
  split; [vm_compute; reflexivity|].
  split; [vm_compute; reflexivity|].
  split; [reflexivity|].
  split; [vm_compute; reflexivity|].
  split; [vm_compute; reflexivity|].
  split; reflexivity.
Qed.

Lemma reverse_mutates_caller_map_witness :
  exists ad log,
    Router_Reverse (routerOf goodDoc) "Users.Show" (Some 1%positive)
                   {[ 1%positive := {[ "id" := "42" ]} ]}
    = (Done (Some ad, {[ 1%positive := ∅ ]}), log)
    /\ Args ad = Some 1%positive.
Proof.
  assert (Hs : Split "Users.Show" "." = ["Users"; "Show"]) by reflexivity.
  assert (Hw : winner "Users" "Show" (Routes (routerOf goodDoc))
               = Some {| Method := "GET"; Path := "/users/:id"; Action := "Users.Show";
                         ControllerName := "Users"; MethodName := "Show";
                         FixedParams := []; TreePath := "/GET/users/:id";
                         routesPath := routesFile; line := 0 |})
    by (vm_compute; reflexivity).
  assert (Hl : ({[ 1%positive := {[ "id" := "42" ]} ]} : Heap) !! 1%positive
               = Some ({[ "id" := "42" ]} : gmap string string))
    by apply lookup_singleton_eq.
  destruct (reverse_mutates_caller_map (routerOf goodDoc) "Users.Show" "Users" "Show"
              1%positive _ _ _ Hs Hw Hl) as (ad & log & E & Ha & _).
  exists ad, log. split; [|exact Ha].
  etransitivity; [exact E|]. vm_compute. reflexivity.
Defined.

(** ** Refresh *)

Section RefreshFacts.
Context `{env : Env} {Node : Type} `{tree : !pathtree.Ops Node}.

Lemma parseLoop_error_nil
    (getModuleRoutes : string -> string -> bool -> M (list Route * option Error))
    (rp content : string) (validate : bool) (entries : list YamlEntry) (st : ParseState)
    (routes : list Route) (e : Error) (log : list LogLine) :
  parseLoop getModuleRoutes rp content validate st entries = (Done (routes, Some e), log) ->
  routes = [].
Proof.
  revert st log. induction entries as [|entry entries IH]; intros st log.
  - simpl. unfold ret. discriminate.
  - rewrite parseLoop_cons.
    destruct (parseEntry getModuleRoutes rp content validate st entry) as [[[st'|e']| |] l];
      unfold bind; simpl; try discriminate.
    + destruct (parseLoop getModuleRoutes rp content validate st' entries)
        as [[[rs err]| |] l'] eqn:E; try discriminate.
      intros [= -> -> _]. eapply IH. exact E.
    + intros [= <- _ _]. reflexivity.
Qed.

Lemma parseRoutesWith_error_nil
    (getModuleRoutes : string -> string -> bool -> M (list Route * option Error))
    (rp joined content : string) (validate : bool)
    (routes : list Route) (e : Error) (log : list LogLine) :
  parseRoutesWith getModuleRoutes rp joined content validate = (Done (routes, Some e), log) ->
  routes = [].
Proof.
  unfold parseRoutesWith. destruct (Unmarshal content) as [yerr|doc].
  - mfold.
    destruct (lineFromYamlError (PlainError yerr)) as [[l| |] l1]; unfold bind at 1;
      try discriminate.
    destruct (routeError_plain yerr rp content l) as (e' & l2 & E & _).
    rewrite E. unfold bind, ret. simpl. intros [= <- _ _]. reflexivity.
  - apply parseLoop_error_nil.
Qed.

Lemma parseRoutesFile_error_nil (fuel : nat) (rp joined : string) (validate : bool)
    (routes : list Route) (e : Error) (log : list LogLine) :
  parseRoutesFile fuel rp joined validate = (Done (routes, Some e), log) ->
  routes = [].
Proof.
  destruct fuel as [|fuel]; simpl; [discriminate|].
  destruct (ReadFile rp) as [rerr|content].
  - unfold ret. intros [= <- _ _]. reflexivity.
  - apply parseRoutesWith_error_nil.
Qed.

(** C1, as the code has it.  When [Refresh] returns an error, either the
    parse failed: the tree is the one before the call, every forward lookup
    answers as before, and the route list is now empty; or the parse
    succeeded and the build of the tree failed: the route list is the newly
    parsed one and the tree is the one the build had reached. *)
Theorem refresh_failure_state (fuel : nat) (router router' : Router Node)
    (e : Error) (log : list LogLine) :
  Router_Refresh fuel router = (Done (router', Some e), log) ->
  path router' = path router
  /\ ((parseRoutesFile fuel (path router) "" true = (Done ([], Some e), log)
       /\ Routes router' = []
       /\ Tree router' = Tree router
       /\ forall reqMethod reqPath,
            Router_Route router' reqMethod reqPath = Router_Route router reqMethod reqPath)
      \/ (exists routes log1 log2,
             parseRoutesFile fuel (path router) "" true = (Done (routes, None), log1)
             /\ addRoutes routes pathtree.New = (Done (Tree router', Some e), log2)
             /\ log = log1 ++ log2
             /\ Routes router' = routes)).
Proof.
  unfold Router_Refresh. mfold.
  destruct (parseRoutesFile fuel (path router) "" true) as [[[routes err]| |] log1] eqn:E;
    unfold bind at 1; try discriminate.
  destruct err as [e'|].
  - unfold ret. rewrite app_nil_r. intros [= <- <- <-].
    pose proof (parseRoutesFile_error_nil _ _ _ _ _ _ _ E) as ->.
    split; [reflexivity|]. left. repeat split.
  - unfold Router_updateTree. mfold. cbn [Routes path].
    destruct (addRoutes routes pathtree.New) as [[[t err]| |] log2] eqn:Ea;
      unfold bind, ret; try discriminate.
    simpl. rewrite app_nil_r. intros [= <- -> <-].
    split; [reflexivity|]. right. exists routes, log1, log2. repeat split.
    assumption.
Qed.

End RefreshFacts.

Lemma refresh_failure_state_witness :
  exists r' e log,
    Router_Refresh (env := envOf [Some noActionEntry]) 1 (routerOf goodDoc)
    = (Done (r', Some e), log)
    /\ path r' = path (routerOf goodDoc)
    /\ Routes r' = []
    /\ Tree r' = Tree (routerOf goodDoc).
Proof.
  eexists _, _, _. split; [vm_compute; reflexivity|].
  match goal with
  | |- path ?r' = _ /\ _ =>
      destruct (refresh_failure_state (env := envOf [Some noActionEntry]) 1
                  (routerOf goodDoc) r'
                  {| Title := "Route validation error";
                     Description := missingOptionMessage "action";
                     ErrPath := routesFile; ErrLine := 0; SourceLines := ["routes"] |} [])
        as [Hp [(_ & Hr & Ht & _) | (routes & l1 & l2 & Hparse & _)]]
  end.
  - vm_compute. reflexivity.
  - split; [exact Hp|]. split; [exact Hr|exact Ht].
  - vm_compute in Hparse. discriminate Hparse.
Defined.

(** C1, as stated, fails: a refresh that fails on an entry without [action]
    returns the error and leaves a router whose route list is empty, not the
    list it had, so that a reverse lookup that found a route before finds
    none after. *)
Lemma refresh_failure_drops_routes :
  exists r r' e log ad h,
    loaded goodDoc = (Done (r, None), [])
    /\ Router_Refresh (env := envOf [Some noActionEntry]) 1 r = (Done (r', Some e), log)
    /\ Routes r <> []
    /\ Routes r' = []
    /\ fst (Router_Reverse r "Health.Ping" None ∅) = Done (Some ad, h)
    /\ fst (Router_Reverse r' "Health.Ping" None ∅) = Done (None, h).
Proof.
  eexists _, _, _, _, _, _.
  split; [vm_compute; reflexivity|].
  split; [vm_compute; reflexivity|].
  split; [vm_compute; discriminate|].
  split; [vm_compute; reflexivity|].
  split; vm_compute; reflexivity.
Qed.

(** ** The tree build *)

Lemma Split_not_nil (s : string) (sep : ascii) : Split s sep <> [].
Proof.
  destruct s as [|c s]; simpl; [discriminate|].
  destruct (Ascii.eqb c sep); [discriminate|].
  destruct (Split s sep); discriminate.
Qed.

Lemma Split_append (m p : string) :
  noSlash m = true ->
  Split (m ++ p) "/"
  = match Split p "/" with
    | [] => []
    | p0 :: rest => (m ++ p0)%string :: rest
    end.
Proof.
  destruct (Split p "/") as [|p0 rest] eqn:E; [destruct (Split_not_nil _ _ E)|].
  induction m as [|c m IH]; intros H.
  - change (("" ++ p)%string) with p. exact E.
  - change ((String c m ++ p)%string) with (String c (m ++ p)%string).
    simpl in H. apply andb_true_iff in H as [Hc Hm]. apply negb_true_iff in Hc.
    cbn [Split]. rewrite Hc, (IH Hm). reflexivity.
Qed.

Lemma splitPath_method_path (m p : string) :
  m <> "" -> noSlash m = true ->
  SpecTree.splitPath ("/" ++ m ++ p)
  = (m ++ (pathSegments p).1)%string :: (pathSegments p).2.
Proof.
  intros Hne Hm. unfold SpecTree.splitPath, pathSegments.
  change (Split ("/" ++ m ++ p) "/") with (EmptyString :: Split (m ++ p) "/").
  rewrite Split_append by assumption.
  destruct (Split p "/") as [|p0 rest] eqn:E; [destruct (Split_not_nil _ _ E)|].
  cbn [fst snd].
  assert (Hx : (m ++ p0)%string <> EmptyString).
  { destruct m; [congruence|discriminate]. }
  destruct rest as [|r rest].
  - simpl. destruct (m ++ p0)%string; [congruence|reflexivity].
  - change (last ((m ++ p0)%string :: r :: rest)) with (last (r :: rest)).
    destruct (last (r :: rest)) as [[|]|]; reflexivity.
Qed.

Import SpecTree.

Lemma LeavesIn_New (P : Leaf -> Prop) : LeavesIn P New.
Proof.
  constructor; simpl; intros;
    first [ discriminate
          | match goal with
            | H : _ !! _ = Some _ |- _ => rewrite lookup_empty in H; discriminate
            end ].
Qed.

Lemma LeavesIn_default (P : Leaf -> Prop) (o : option Node) :
  (forall c, o = Some c -> LeavesIn P c) -> LeavesIn P (default New o).
Proof. destruct o; simpl; intros H; [apply H; reflexivity|apply LeavesIn_New]. Qed.

Lemma add_LeavesIn (P : Leaf -> Prop) (val : Route) :
  (forall wc, P {| Value := val; Wildcards := wc |}) ->
  forall (els wc : list string) (n n' : Node) (err : option string),
    LeavesIn P n -> add els wc val n = Done (n', err) -> LeavesIn P n'.
Proof.
  intros HP els. induction els as [|el els IH]; intros wc n n' err Hn; simpl.
  - destruct (leaf n) eqn:E.
    + intros [= <- _]. assumption.
    + intros [= <- _]. destruct Hn as [n Hl He Hw Hs]. constructor; simpl; try assumption.
      intros l [= <-]. apply HP.
  - destruct el as [|c name]; [discriminate|].
    destruct (Ascii.eqb c ":").
    { destruct (add els (wc ++ [name]) val (default New (wildcard n)))
        as [[child e]| |] eqn:E; try discriminate.
      intros [= <- _]. destruct Hn as [n Hl He Hw Hs]. constructor; simpl; try assumption.
      intros c0 [= <-]. eapply IH; [|exact E]. apply LeavesIn_default. assumption. }
    destruct (Ascii.eqb c "*").
    { destruct (star n) eqn:E.
      - intros [= <- _]. assumption.
      - intros [= <- _]. destruct Hn as [n Hl He Hw Hs]. constructor; simpl; try assumption.
        intros l [= <-]. apply HP. }
    destruct (add els wc val (default New (edges n !! String c name)))
      as [[child e]| |] eqn:E; try discriminate.
    intros [= <- _]. destruct Hn as [n Hl He Hw Hs]. constructor; simpl; try assumption.
    intros k c0 Hk. destruct (decide (String c name = k)) as [<-|Hne].
    + rewrite lookup_insert_eq in Hk. injection Hk as <-.
      eapply IH; [|exact E]. apply LeavesIn_default. apply He.
    + rewrite lookup_insert_ne in Hk by assumption. eapply He. exact Hk.
Qed.

Lemma find_LeavesIn (P : Leaf -> Prop) (els : list string) :
  forall (exp : list string) (n : Node) (l : Leaf) (exps : list string),
    LeavesIn P n -> find els exp n = (Some l, exps) -> P l.
Proof.
  induction els as [|el els IH]; intros exp n l exps Hn; simpl;
    destruct Hn as [n Hl He Hw Hs].
  - intros [= E _]. apply Hl. assumption.
  - destruct (edges n !! el) as [child|] eqn:E.
    { apply IH. eapply He. exact E. }
    destruct (wildcard n) as [child|] eqn:Ew.
    { apply IH. apply Hw. reflexivity. }
    destruct (star n) as [s|] eqn:Es; [|discriminate].
    intros [= <- _]. apply Hs. reflexivity.
Qed.

(** An insertion under a key whose first segment is literal changes the
    child under that segment and nothing else of the root. *)
Lemma add_literal (c : ascii) (name : string) (els wc : list string) (val : Route) (n : Node) :
  Ascii.eqb c ":" = false -> Ascii.eqb c "*" = false ->
  add (String c name :: els) wc val n
  = match add els wc val (default New (edges n !! String c name)) with
    | Done (child, err) =>
        Done (mkNode (leaf n) (<[String c name := child]> (edges n)) (wildcard n) (star n),
              err)
    | Panic p => Panic p
    | OutOfFuel => OutOfFuel
    end.
Proof. intros H1 H2. simpl. rewrite H1, H2. reflexivity. Qed.

Lemma Add_method_path (m p : string) (val : Route) (t : Node) :
  m <> "" -> noSlash m = true ->
  Add ("/" ++ m ++ p) val t
  = add ((m ++ (pathSegments p).1)%string :: (pathSegments p).2) [] val t.
Proof. intros H1 H2. unfold Add. simpl firstIs. cbv iota. rewrite splitPath_method_path by assumption. reflexivity. Qed.

Lemma Find_method_path (m p : string) (t : Node) :
  m <> "" -> noSlash m = true ->
  Find ("/" ++ m ++ p) t
  = find ((m ++ (pathSegments p).1)%string :: (pathSegments p).2) [] t.
Proof. intros H1 H2. unfold Find. simpl firstIs. cbv iota. rewrite splitPath_method_path by assumption. reflexivity. Qed.

Lemma append_inj (m a b : string) : (m ++ a)%string = (m ++ b)%string -> a = b.
Proof.
  induction m as [|c m IH]; intros H; [exact H|].
  change ((String c m ++ a)%string) with (String c (m ++ a)%string) in H.
  change ((String c m ++ b)%string) with (String c (m ++ b)%string) in H.
  injection H as H. apply IH. exact H.
Qed.

Lemma get_ne_head (x y : string) : ("GET" ++ x)%string <> ("HEAD" ++ y)%string.
Proof.
  change ("GET" ++ x)%string with (String "G" ("ET" ++ x)%string).
  change ("HEAD" ++ y)%string with (String "H" ("EAD" ++ y)%string).
  discriminate.
Qed.

Lemma mirror_New : headMirrorsGet New.
Proof.
  split; [|split]; simpl; intros; try discriminate.
  rewrite !lookup_empty. reflexivity.
Qed.

Lemma mirror_add_literal (c : ascii) (name : string) (els wc : list string) (val : Route)
    (t t1 : Node) (err : option string) :
  Ascii.eqb c ":" = false -> Ascii.eqb c "*" = false ->
  Ascii.eqb c "G" = false -> Ascii.eqb c "H" = false ->
  headMirrorsGet t ->
  add (String c name :: els) wc val t = Done (t1, err) ->
  headMirrorsGet t1.
Proof.
  intros H1 H2 HG HH (Hm & Hw & Hs). rewrite add_literal by assumption.
  destruct (add els wc val (default New (edges t !! String c name))) as [[child e]| |];
    try discriminate.
  intros [= <- _]. split; [|split]; simpl; try assumption.
  intros x.
  rewrite !lookup_insert_ne; [apply Hm| |].
  - change ("HEAD" ++ x)%string with (String "H" ("EAD" ++ x)%string).
    intros [= -> _]. discriminate.
  - change ("GET" ++ x)%string with (String "G" ("ET" ++ x)%string).
    intros [= -> _]. discriminate.
Qed.

Lemma mirror_add_named (name : string) (els wc : list string) (val : Route)
    (t t1 : Node) (err : option string) :
  Method val <> "GET" ->
  headMirrorsGet t ->
  add (String ":" name :: els) wc val t = Done (t1, err) ->
  headMirrorsGet t1.
Proof.
  intros Hv (Hm & Hw & Hs). simpl.
  destruct (add els (wc ++ [name]) val (default New (wildcard t))) as [[child e]| |] eqn:E;
    try discriminate.
  intros [= <- _]. split; [|split]; simpl; try assumption.
  intros c0 [= <-]. eapply add_LeavesIn; [| |exact E].
  - intros wc'. exact Hv.
  - apply LeavesIn_default. assumption.
Qed.

Lemma mirror_add_get (p : string) (val : Route) (t t1 t2 : Node) :
  headMirrorsGet t ->
  Add (treePath "GET" p) val t = Done (t1, None) ->
  Add (treePath "HEAD" p) val t1 = Done (t2, None) ->
  headMirrorsGet t2.
Proof.
  intros (Hm & Hw & Hs).
  change (treePath "GET" p) with ("/" ++ "GET" ++ p)%string.
  change (treePath "HEAD" p) with ("/" ++ "HEAD" ++ p)%string.
  rewrite !Add_method_path by (discriminate || reflexivity).
  set (s0 := (pathSegments p).1). set (R := (pathSegments p).2).
  change ("GET" ++ s0)%string with (String "G" ("ET" ++ s0)%string).
  change ("HEAD" ++ s0)%string with (String "H" ("EAD" ++ s0)%string).
  rewrite !add_literal by reflexivity.
  destruct (add R [] val (default New (edges t !! String "G" ("ET" ++ s0)%string)))
    as [[c1 e1]| |] eqn:E1; try discriminate.
  intros [= <- ->]. cbn [edges leaf wildcard star].
  rewrite lookup_insert_ne by discriminate.
  change (String "H" ("EAD" ++ s0)%string) with ("HEAD" ++ s0)%string.
  rewrite <- Hm.
  change ("GET" ++ s0)%string with (String "G" ("ET" ++ s0)%string).
  rewrite E1. intros [= <-].
  split; [|split]; cbn [edges leaf wildcard star]; try assumption.
  intros x. destruct (decide (x = s0)) as [->|Hne].
  - rewrite lookup_insert_ne by discriminate.
    change ("GET" ++ s0)%string with (String "G" ("ET" ++ s0)%string).
    change ("HEAD" ++ s0)%string with (String "H" ("EAD" ++ s0)%string).
    rewrite !lookup_insert_eq. reflexivity.
  - change (String "G" ("ET" ++ s0)%string) with ("GET" ++ s0)%string.
    change (String "H" ("EAD" ++ s0)%string) with ("HEAD" ++ s0)%string.
    assert (N1 : ("GET" ++ s0)%string <> ("GET" ++ x)%string).
    { intros H. apply Hne. symmetry. eapply append_inj. exact H. }
    assert (N2 : ("HEAD" ++ s0)%string <> ("HEAD" ++ x)%string).
    { intros H. apply Hne. symmetry. eapply append_inj. exact H. }
    assert (N3 : ("HEAD" ++ s0)%string <> ("GET" ++ x)%string).
    { intros H. symmetry in H. revert H. apply get_ne_head. }
    pose proof (get_ne_head s0 x) as N4.
    rewrite !lookup_insert_ne by assumption. apply Hm.
Qed.

Lemma mirror_add_other (val : Route) (t t1 : Node) (err : option string) :
  In (Method val) routeMethods ->
  Method val <> "GET" -> Method val <> "HEAD" ->
  headMirrorsGet t ->
  Add (treePath (Method val) (Path val)) val t = Done (t1, err) ->
  headMirrorsGet t1.
Proof.
  intros Hin HG HH Ht. unfold routeMethods in Hin. simpl in Hin.
  destruct Hin as [E|[E|[E|[E|[E|[E|[E|[E|[E|[]]]]]]]]]]; try congruence;
    rewrite <- E.
  1-6: match goal with
       | |- Add (treePath ?m ?p) _ _ = _ -> _ =>
           change (treePath m p) with ("/" ++ m ++ p)%string;
           rewrite Add_method_path by (discriminate || reflexivity);
           apply mirror_add_literal; (reflexivity || assumption)
       end.
  change (treePath "*" (Path val)) with ("/" ++ ":METHOD" ++ Path val)%string.
  rewrite Add_method_path by (discriminate || reflexivity).
  apply mirror_add_named; assumption.
Qed.

Section BuildFacts.
Context `{env : Env} {Node : Type} `{tree : !pathtree.Ops Node}.

(** A step of a successful build. *)
Lemma addRoutes_cons_ok (route : Route) (routes : list Route) (t t' : Node)
    (log : list LogLine) :
  addRoutes (route :: routes) t = (Done (t', None), log) ->
  exists t1 t2,
    pathtree.Add (TreePath route) route t = Done (t1, None)
    /\ (if String.eqb (Method route) "GET"
        then pathtree.Add (treePath "HEAD" (Path route)) route t1 = Done (t2, None)
        else t2 = t1)
    /\ addRoutes routes t2 = (Done (t', None), log).
Proof.
  cbn [addRoutes]. mfold. unfold liftO.
  destruct (pathtree.Add (TreePath route) route t) as [[t1 [msg|]]| |] eqn:E1;
    [| |discriminate|discriminate].
  - rewrite bind_done_nil. mred.
    destruct (routeError_plain msg (routesPath route) "" 0) as (e & l & Ee & _).
    rewrite Ee. unfold bind, ret. discriminate.
  - rewrite bind_done_nil.
    destruct (String.eqb (Method route) "GET").
    + destruct (pathtree.Add (treePath "HEAD" (Path route)) route t1)
        as [[t2 [msg|]]| |] eqn:E2; [| |discriminate|discriminate].
      * rewrite bind_done_nil.
        destruct (routeError_plain msg (routesPath route) "" 0) as (e & l & Ee & _).
        rewrite Ee. unfold bind, ret. discriminate.
      * rewrite bind_done_nil. intros H. exists t1, t2. auto.
    + mred. intros H. exists t1, t1. auto.
Qed.

Lemma addRoutes_addAll (routes : list Route) (t t' : Node) (log : list LogLine) :
  addRoutes routes t = (Done (t', None), log) ->
  addAll (insertions routes) t = Done (t', None).
Proof.
  revert t log. induction routes as [|route routes IH]; intros t log.
  - simpl. unfold ret. intros [= <- _]. reflexivity.
  - intros H. apply addRoutes_cons_ok in H as (t1 & t2 & E1 & E2 & H).
    unfold insertions. cbn [flat_map]. fold (insertions routes).
    unfold treeKeys. cbn [map app addAll]. rewrite E1.
    destruct (String.eqb (Method route) "GET").
    + cbn [map app addAll]. rewrite E2. eapply IH. exact H.
    + subst t2. cbn [map app]. eapply IH. exact H.
Qed.

End BuildFacts.

Lemma insertions_get (routes : list Route) (route : Route) :
  In route routes -> Method route = "GET" ->
  exists pre post,
    insertions routes
    = pre ++ (TreePath route, route) :: (treePath "HEAD" (Path route), route) :: post.
Proof.
  intros Hin HG. induction routes as [|r routes IH]; [destruct Hin|].
  unfold insertions. cbn [flat_map]. fold (insertions routes).
  destruct Hin as [->|Hin].
  - exists [], (insertions routes). unfold treeKeys. rewrite HG. reflexivity.
  - destruct (IH Hin) as (pre & post & E). rewrite E.
    exists (map (fun key => (key, r)) (treeKeys r) ++ pre), post.
    rewrite <- app_assoc. reflexivity.
Qed.

Lemma addRoutes_mirror `{env : Env} (routes : list Route) (t t' : Node) (log : list LogLine) :
  (forall route, In route routes -> parsedRoute route) ->
  (forall route, In route routes -> Method route <> "HEAD") ->
  headMirrorsGet t ->
  addRoutes routes t = (Done (t', None), log) ->
  headMirrorsGet t'.
Proof.
  revert t log. induction routes as [|route routes IH]; intros t log Hp Hh Ht.
  - simpl. unfold ret. intros [= <- _]. assumption.
  - intros H. apply addRoutes_cons_ok in H as (t1 & t2 & E1 & E2 & H).
    destruct (Hp route (or_introl eq_refl)) as [Htp Hin].
    specialize (Hh route (or_introl eq_refl)) as Hnh.
    rewrite Htp in E1.
    apply (IH t2 log); [intros; apply Hp; right; assumption
                       |intros; apply Hh; right; assumption| |assumption].
    destruct (String.eqb (Method route) "GET") eqn:EG.
    + apply String.eqb_eq in EG. rewrite EG in E1.
      eapply mirror_add_get; [exact Ht|exact E1|exact E2].
    + subst t2. apply String.eqb_neq in EG.
      eapply mirror_add_other; [exact Hin|exact EG|exact Hnh|exact Ht|exact E1].
Qed.

(** With the GET and HEAD children of the root alike, a lookup that is
    answered by a GET route is answered alike for GET and for HEAD. *)
Lemma mirror_find (t : Node) (p : string) (l : Leaf) (exps : list string) :
  headMirrorsGet t ->
  Method (Value l) = "GET" ->
  Find (treePath "GET" p) t = (Some l, exps) <-> Find (treePath "HEAD" p) t = (Some l, exps).
Proof.
  intros (Hm & Hw & Hs) HG.
  change (treePath "GET" p) with ("/" ++ "GET" ++ p)%string.
  change (treePath "HEAD" p) with ("/" ++ "HEAD" ++ p)%string.
  rewrite !Find_method_path by (discriminate || reflexivity).
  set (s0 := (pathSegments p).1). set (R := (pathSegments p).2).
  cbn [find]. rewrite <- (Hm s0).
  destruct (edges t !! ("GET" ++ s0)%string) as [child|]; [reflexivity|].
  destruct (wildcard t) as [w|] eqn:Ew.
  - split; intros H; exfalso; eapply (find_LeavesIn notGet) in H;
      try (apply Hw; reflexivity); apply H; exact HG.
  - destruct (star t) as [s|] eqn:Es.
    + split; intros [= <- _]; exfalso; apply (Hs s eq_refl); exact HG.
    + split; discriminate.
Qed.

(** ** The routes the parser returns *)

Lemma bind_inv {A B} (f : A -> M B) (m : M A) (b : B) (log : list LogLine) :
  bind f m = (Done b, log) ->
  exists a l1 l2, m = (Done a, l1) /\ f a = (Done b, l2) /\ log = l1 ++ l2.
Proof.
  unfold bind. destruct m as [[a| |] l1]; try discriminate.
  destruct (f a) as [r l2] eqn:E. intros [= -> <-]. exists a, l1, l2. repeat split.
  exact E.
Qed.

Ltac binv H :=
  let a := fresh "a" in
  let l1 := fresh "l" in
  let l2 := fresh "l" in
  let E := fresh "E" in
  let L := fresh "L" in
  apply bind_inv in H as (a & l1 & l2 & E & H & L).

(** The upper case of a text that is an alternative of the pattern, case
    folded, is the alternative. *)
Lemma matchFold_ToUpper (alt : string) :
  Forall (fun p : ascii => upper_ascii p = p /\ (nat_of_ascii p < 128)%nat)
         (list_ascii_of_string alt) ->
  forall s : string, matchFold alt s = true -> ToUpper s = alt.
Proof.
  induction alt as [|p alt IH]; intros Hp s H.
  - simpl in H. apply String.eqb_eq in H. subst s. reflexivity.
  - cbn [list_ascii_of_string] in Hp. apply Forall_cons in Hp as [[Hup Hlt] Hp].
    cbn [matchFold] in H. destruct s as [|c s]; [discriminate|].
    cbn [foldsTo] in H.
    destruct (Ascii.eqb (upper_ascii c) p) eqn:Hc.
    + apply Ascii.eqb_eq in Hc.
      assert (Hc128 : (nat_of_ascii c < 128)%nat).
      { destruct (Nat.lt_ge_cases (nat_of_ascii c) 128) as [|Hge]; [assumption|].
        exfalso. unfold upper_ascii in Hc.
        destruct ((97 <=? nat_of_ascii c)%nat && (nat_of_ascii c <=? 122)%nat) eqn:Hr.
        - apply andb_true_iff in Hr as [_ Hr]. apply Nat.leb_le in Hr. lia.
        - rewrite Hc in Hge. lia. }
      assert (Hs : ToUpper (String c s) = String (upper_ascii c) (ToUpper s)).
      { cbn [ToUpper]. destruct s as [|d s']; [reflexivity|].
        unfold isLongS, isDotlessI.
        destruct (Ascii.eqb c (ascii_of_nat 197)) eqn:E1.
        { apply Ascii.eqb_eq in E1. subst c. vm_compute in Hc128. lia. }
        destruct (Ascii.eqb c (ascii_of_nat 196)) eqn:E2.
        { apply Ascii.eqb_eq in E2. subst c. vm_compute in Hc128. lia. }
        reflexivity. }
      rewrite Hs, Hc, (IH Hp s H). reflexivity.
    + destruct s as [|d s']; [discriminate|].
      destruct (Ascii.eqb p "S" && isLongS c d) eqn:Hl; [|discriminate].
      apply andb_true_iff in Hl as [HS Hl]. apply Ascii.eqb_eq in HS. subst p.
      cbn [ToUpper]. rewrite Hl, (IH Hp s' H). reflexivity.
Qed.

(** A method the pattern accepts has one of the methods for upper case. *)
Lemma MatchString_methods (method : string) :
  routeMethodPattern_MatchString method = true -> In (ToUpper method) routeMethods.
Proof.
  unfold routeMethodPattern_MatchString. intros H.
  apply existsb_exists in H as (alt & Hin & Hm).
  rewrite (matchFold_ToUpper alt); [exact Hin| |exact Hm].
  unfold routeMethods in Hin. simpl in Hin.
  repeat (destruct Hin as [<-|Hin]; [repeat constructor; vm_compute; lia|]).
  contradiction.
Qed.

(** The method written with a long s for its [s] is accepted and gives
    [POST]; written with a dotless i, [OPTIONS] is refused, though its upper
    case is [OPTIONS]. *)
Lemma MatchString_outside_ascii :
  let longS := String (ascii_of_nat 197) (String (ascii_of_nat 191) EmptyString) in
  let dotlessI := String (ascii_of_nat 196) (String (ascii_of_nat 177) EmptyString) in
  routeMethodPattern_MatchString ("po" ++ longS ++ "t") = true
  /\ ToUpper ("po" ++ longS ++ "t") = "POST"
  /\ routeMethodPattern_MatchString ("opt" ++ dotlessI ++ "ons") = false
  /\ ToUpper ("opt" ++ dotlessI ++ "ons") = "OPTIONS".
Proof. vm_compute. repeat split. Qed.

Lemma NewRoute_parsed (method path action rp : string) (params : list string)
    (r : Route) (log : list LogLine) :
  routeMethodPattern_MatchString method = true ->
  NewRoute method path action rp params = (Done r, log) ->
  parsedRoute r.
Proof.
  intros Hv. apply MatchString_methods in Hv.
  unfold NewRoute. cbn [Path]. destruct (HasPrefix path "/"); cbn [negb].
  - destruct (Split action ".") as [|p0 [|p1 [|p2 ps]]];
      unfold ret; intros [= <- _]; split; simpl; auto.
  - mfold. unfold bind, logPrint, ret. intros [= <- _]. split; simpl; auto.
Qed.

Section ParsedRoutes.
Context `{env : Env}.

Lemma parseEntry_import
    (gm : string -> string -> bool -> M (list Route * option Error))
    (rp content : string) (validate : bool) (st : ParseState)
    (route : gmap string YamlValue) (moduleName : string) :
  importName route = Some moduleName ->
  exists joined modulePrefix,
    parseEntry gm rp content validate st (Some route)
    = bind (fun '(moduleRoutes, err) =>
              match err with
              | Some e =>
                  l ← lineFromYamlError (RevelError e);
                  e' ← routeError (RevelError e) rp content l;
                  ret (inr e')
              | None => ret (inl {| psJoinedPath := joined;
                                    psRoutes := psRoutes st ++ moduleRoutes |})
              end)
           (gm moduleName modulePrefix validate).
Proof.
  unfold importName, parseEntry.
  destruct (route !! "import") as [[]|]; try discriminate.
  intros [= ->]. eexists _, _. reflexivity.
Qed.

Lemma parseEntry_parsed
    (gm : string -> string -> bool -> M (list Route * option Error))
    (rp content : string) (validate : bool) (st st' : ParseState)
    (entry : YamlEntry) (log : list LogLine) :
  returnsParsed gm ->
  Forall parsedRoute (psRoutes st) ->
  parseEntry gm rp content validate st entry = (Done (inl st'), log) ->
  Forall parsedRoute (psRoutes st').
Proof.
  intros Hgm Hst. destruct entry as [route|]; [|intros [= <- _]; assumption].
  destruct (importName route) as [moduleName|] eqn:Hi.
  - destruct (parseEntry_import gm rp content validate st route moduleName Hi)
      as (joined & modulePrefix & ->).
    intros H. binv H. destruct a as [moduleRoutes [e|]].
    + binv H. binv H. discriminate.
    + injection H as <- _. simpl. apply Forall_app. split; [assumption|].
      eapply Hgm. exact E.
  - destruct (missingOption route) as [key|] eqn:Hm.
    + rewrite (parseEntry_missing _ _ _ _ _ _ key) by assumption.
      intros H. binv H. discriminate.
    + rewrite parseEntry_route by assumption. mfold.
      intros H. binv H. binv H.
      destruct (routeMethodPattern_MatchString a0) eqn:Hv; cbn [negb] in H.
      * binv H. binv H. binv H. binv H.
        destruct a4 as [err|].
        -- binv H. discriminate.
        -- injection H as <- _. simpl. apply Forall_app. split; [assumption|].
           constructor; [|constructor]. eapply NewRoute_parsed; eassumption.
      * binv H. discriminate.
Qed.

Lemma parseLoop_parsed
    (gm : string -> string -> bool -> M (list Route * option Error))
    (rp content : string) (validate : bool) (entries : list YamlEntry) :
  returnsParsed gm ->
  forall (st : ParseState) routes err log,
    Forall parsedRoute (psRoutes st) ->
    parseLoop gm rp content validate st entries = (Done (routes, err), log) ->
    Forall parsedRoute routes.
Proof.
  intros Hgm. induction entries as [|entry entries IH]; intros st routes err log Hst.
  - simpl. unfold ret. intros [= <- _ _]. assumption.
  - rewrite parseLoop_cons. intros H. binv H. destruct a as [st'|e].
    + eapply IH; [|exact H]. eapply parseEntry_parsed; eassumption.
    + injection H as <- _ _. constructor.
Qed.

Lemma parseRoutesFile_parsed (fuel : nat) : returnsParsed (parseRoutesFile fuel).
Proof.
  induction fuel as [|fuel IH]; intros rp joined validate routes err log; simpl;
    [discriminate|].
  destruct (ReadFile rp) as [rerr|content].
  - unfold ret. intros [= <- _ _]. constructor.
  - unfold parseRoutesWith. destruct (Unmarshal content) as [yerr|doc].
    + mfold. intros H. binv H. binv H. injection H as <- _ _. constructor.
    + apply parseLoop_parsed; [|constructor].
      intros m j v rs e l. unfold getModuleRoutesWith.
      destruct (ModuleByName m).
      * apply IH.
      * mfold. unfold bind, logPrint, ret. intros [= <- _ _]. constructor.
Qed.

End ParsedRoutes.

(** ** The claim about HEAD *)

Lemma refresh_ok_inv `{env : Env} {Node : Type} `{tree : !pathtree.Ops Node}
    (fuel : nat) (router r' : Router Node) (log : list LogLine) :
  Router_Refresh fuel router = (Done (r', None), log) ->
  exists log1 log2,
    parseRoutesFile fuel (path router) "" true = (Done (Routes r', None), log1)
    /\ addRoutes (Routes r') pathtree.New = (Done (Tree r', None), log2).
Proof.
  unfold Router_Refresh. mfold. intros H. binv H. destruct a as [routes [e|]].
  - unfold ret in H. discriminate.
  - unfold Router_updateTree in H. mfold. cbn [Routes path] in H. binv H.
    destruct a as [t err]. unfold ret in H. injection H as Hr He _. subst r' err.
    exists l, l1. split; assumption.
Qed.

(** C5, as the code and the match tree of the spec have it.  A build that
    succeeds has made the insertions of the list in order, and for each GET
    route the insertion under its own key is followed by the one under the
    HEAD key of its path, with the same route.  After a refresh whose routes
    are none declared for HEAD, a lookup answered by a GET route is answered
    alike, same leaf and same captured values, for GET and for HEAD. *)
Theorem head_lookup_mirrors_get `{env : Env} :
  (forall (Node : Type) (tree : pathtree.Ops Node) (routes : list Route) (t : Node)
          (log : list LogLine),
      addRoutes routes pathtree.New = (Done (t, None), log) ->
      addAll (insertions routes) pathtree.New = Done (t, None)
      /\ forall route, In route routes -> Method route = "GET" ->
           exists pre post,
             insertions routes
             = pre ++ (TreePath route, route)
                   :: (treePath "HEAD" (Path route), route) :: post)
  /\ (forall (fuel : nat) (router r' : Router SpecTree.Node) (log : list LogLine),
        Router_Refresh fuel router = (Done (r', None), log) ->
        (forall route, In route (Routes r') -> Method route <> "HEAD") ->
        forall (reqPath : string) (l : Leaf) (exps : list string),
          Method (Value l) = "GET" ->
          (SpecTree.Find (treePath "GET" reqPath) (Tree r') = (Some l, exps)
           <-> SpecTree.Find (treePath "HEAD" reqPath) (Tree r') = (Some l, exps))
          /\ (SpecTree.Find (treePath "GET" reqPath) (Tree r') = (Some l, exps) ->
              Router_Route r' "HEAD" reqPath = Router_Route r' "GET" reqPath)).
Proof.
  split.
  - intros Node tree routes t log H. split.
    + eapply addRoutes_addAll. exact H.
    + intros route Hin HG. apply insertions_get; assumption.
  - intros fuel router r' log H Hh reqPath l exps HG.
    apply refresh_ok_inv in H as (log1 & log2 & Hp & Hb).
    assert (Hm : headMirrorsGet (Tree r')).
    { eapply addRoutes_mirror; [| |apply mirror_New|exact Hb]; [|assumption].
      apply (proj1 (List.Forall_forall parsedRoute (Routes r'))).
      eapply parseRoutesFile_parsed. exact Hp. }
    pose proof (mirror_find (Tree r') reqPath l exps Hm HG) as Hiff.
    split; [exact Hiff|].
    intros HF. unfold Router_Route. cbn [pathtree.Find SpecTree.ops].
    rewrite HF, (proj1 Hiff HF). reflexivity.
Qed.

Lemma head_lookup_mirrors_get_witness :
  exists l exps,
    SpecTree.Find (treePath "GET" "/users/42") (Tree (routerOf goodDoc)) = (Some l, exps)
    /\ SpecTree.Find (treePath "HEAD" "/users/42") (Tree (routerOf goodDoc)) = (Some l, exps)
    /\ Router_Route (routerOf goodDoc) "HEAD" "/users/42"
       = Router_Route (routerOf goodDoc) "GET" "/users/42".
Proof.
  destruct (head_lookup_mirrors_get (env := envOf goodDoc)) as [_ H].
  assert (Hr : Router_Refresh (env := envOf goodDoc) 1 (NewRouter routesFile)
               = (Done (routerOf goodDoc, None), [])) by (vm_compute; reflexivity).
  assert (Hh : forall route, In route (Routes (routerOf goodDoc)) -> Method route <> "HEAD").
  { intros route Hin. vm_compute in Hin.
    destruct Hin as [<-|[<-|[<-|[]]]]; discriminate. }
  eexists _, _.
  match goal with
  | |- ?F = (Some ?l, ?exps) /\ _ =>
      assert (HF : F = (Some l, exps)) by (vm_compute; reflexivity)
  end.
  split; [exact HF|].
  edestruct (H 1 (NewRouter routesFile) (routerOf goodDoc) [] Hr Hh "/users/42")
    as [Hiff Hroute]; [|split; [apply (proj1 Hiff HF)|apply (Hroute HF)]].
  reflexivity.
Defined.

(** C5, as stated, fails: with a route for [HEAD /a] and a later route for
    [GET /:x], the GET route has been inserted under the HEAD key too, the
    request [GET /a] is answered by the GET route, and the request [HEAD /a]
    is answered by the HEAD route, with another action and other
    parameters. *)
Lemma head_route_shadows_get :
  exists r log getRoute viaGet viaHead,
    loaded headAndGetDoc = (Done (r, None), log)
    /\ In getRoute (Routes r) /\ Method getRoute = "GET"
    /\ In (treePath "HEAD" (Path getRoute), getRoute) (insertions (Routes r))
    /\ Router_Route r "GET" "/a" = (Done (Some viaGet), [])
    /\ Router_Route r "HEAD" "/a" = (Done (Some viaHead), [])
    /\ rmControllerName viaGet = "Users" /\ rmParams viaGet = {[ "x" := ["a"] ]}
    /\ rmControllerName viaHead = "Static" /\ rmParams viaHead = ∅.
Proof.
  eexists _, _,
    {| Method := "GET"; Path := "/:x"; Action := "Users.Show";
       ControllerName := "Users"; MethodName := "Show"; FixedParams := [];
       TreePath := "/GET/:x"; routesPath := routesFile; line := 0 |}, _, _.
  split; [vm_compute; reflexivity|].
  split; [vm_compute; auto|].
  split; [reflexivity|].
  split; [vm_compute; auto|].
  split; [vm_compute; reflexivity|].
  split; [vm_compute; reflexivity|].
  repeat split; vm_compute; reflexivity.
Qed.

(** ** More about the parser *)

Lemma bind_logged {A B} (f : A -> M B) (a : A) (l : list LogLine) :
  bind f (Done a, l) = logged l (f a).
Proof. unfold bind, logged. destruct (f a). reflexivity. Qed.

Lemma bind_assoc {A B C} (f : A -> M B) (g : B -> M C) (m : M A) :
  bind g (bind f m) = bind (fun a => bind g (f a)) m.
Proof.
  destruct m as [[a| |] l]; try reflexivity.
  unfold bind at 2 3. destruct (f a) as [[b| |] l1]; try reflexivity.
  unfold bind. destruct (g b) as [r l2]. rewrite app_assoc. reflexivity.
Qed.

Lemma bind_ext {A B} (f g : A -> M B) (m : M A) :
  (forall a, f a = g a) -> bind f m = bind g m.
Proof. intros H. destruct m as [[a| |] l]; try reflexivity. unfold bind. rewrite H. reflexivity. Qed.

Lemma parseEntry_routeOfEntry `{env : Env}
    (gm : string -> string -> bool -> M (list Route * option Error))
    (rp content : string) (validate : bool) (st : ParseState)
    (route : gmap string YamlValue) :
  importName route = None ->
  missingOption route = None ->
  parseEntry gm rp content validate st (Some route)
  = bind (afterRoute st) (routeOfEntry rp content validate route).
Proof.
  intros Hi Hm. rewrite parseEntry_route by assumption.
  unfold routeOfEntry. mfold.
  rewrite bind_assoc. apply bind_ext. intros params.
  rewrite bind_assoc. apply bind_ext. intros method.
  destruct (negb (routeMethodPattern_MatchString method)).
  - rewrite bind_assoc. apply bind_ext. intros e. rewrite bind_ret. reflexivity.
  - rewrite bind_assoc. apply bind_ext. intros path.
    rewrite bind_assoc. apply bind_ext. intros action.
    rewrite bind_assoc. apply bind_ext. intros r.
    rewrite bind_assoc. apply bind_ext. intros [err|].
    + rewrite bind_assoc. apply bind_ext. intros e. rewrite bind_ret. reflexivity.
    + rewrite bind_ret. reflexivity.
Qed.

Lemma parseLoop_joined_blind `{env : Env}
    (gm : string -> string -> bool -> M (list Route * option Error))
    (rp content : string) (validate : bool) (entries : list YamlEntry) :
  prefixBlind gm ->
  forall st1 st2 : ParseState,
    psRoutes st1 = psRoutes st2 ->
    parseLoop gm rp content validate st1 entries
    = parseLoop gm rp content validate st2 entries.
Proof.
  intros Hgm. induction entries as [|entry entries IH]; intros st1 st2 Hst.
  - simpl. rewrite Hst. reflexivity.
  - rewrite !parseLoop_cons. destruct entry as [route|].
    + destruct (importName route) as [name|] eqn:Hi.
      * destruct (parseEntry_import gm rp content validate st1 route name Hi)
          as (j1 & p1 & ->).
        destruct (parseEntry_import gm rp content validate st2 route name Hi)
          as (j2 & p2 & ->).
        rewrite !bind_assoc, (Hgm name p1 p2 validate).
        apply bind_ext. intros [mr [e|]].
        -- reflexivity.
        -- rewrite !bind_ret. apply IH. simpl. rewrite Hst. reflexivity.
      * destruct (missingOption route) as [key|] eqn:Hm.
        -- rewrite !(parseEntry_missing _ _ _ _ _ _ key) by assumption. reflexivity.
        -- rewrite !parseEntry_routeOfEntry by assumption.
           rewrite !bind_assoc. apply bind_ext. intros [r|e]; simpl.
           ++ rewrite !bind_ret. apply IH. simpl. rewrite Hst. reflexivity.
           ++ reflexivity.
    + simpl parseEntry. rewrite !bind_ret. apply IH. assumption.
Qed.

Lemma getModuleRoutes_prefix_blind `{env : Env} (fuel : nat) :
  prefixBlind (getModuleRoutes fuel).
Proof.
  induction fuel as [|fuel IH]; intros name p1 p2 v;
    unfold getModuleRoutes, getModuleRoutesWith;
    destruct (ModuleByName name) as [mp|]; try reflexivity.
  simpl. destruct (ReadFile _) as [rerr|content]; [reflexivity|].
  unfold parseRoutesWith. destruct (Unmarshal content) as [yerr|doc]; [reflexivity|].
  apply parseLoop_joined_blind; [exact IH|reflexivity].
Qed.

(** The prefix handed down through the import entries is never applied:
    whatever prefix a routes file is parsed with, the routes, the error and
    the log are the same, so an imported route keeps the path written in the
    file of its module. *)
Theorem import_prefix_never_applied `{env : Env} (fuel : nat) (rp joined1 joined2 : string)
    (validate : bool) :
  parseRoutesFile fuel rp joined1 validate = parseRoutesFile fuel rp joined2 validate.
Proof.
  destruct fuel as [|fuel]; [reflexivity|].
  simpl. destruct (ReadFile rp) as [rerr|content]; [reflexivity|].
  unfold parseRoutesWith. destruct (Unmarshal content) as [yerr|doc]; [reflexivity|].
  apply parseLoop_joined_blind; [|reflexivity].
  apply getModuleRoutes_prefix_blind.
Qed.

Lemma routeError_line `{env : Env} (err : GoError) (rp content : string)
    (e : Error) (log : list LogLine) :
  (forall e', err = RevelError e' -> ErrLine e' = 0%Z) ->
  routeError err rp content 0 = (Done e, log) ->
  ErrLine e = 0%Z.
Proof.
  intros Herr. destruct err as [msg|e'].
  - destruct (routeError_plain msg rp content 0) as (e0 & l0 & E & _ & _ & _ & Hl).
    rewrite E. intros [= <- _]. exact Hl.
  - simpl. unfold ret. intros [= <- _]. apply Herr. reflexivity.
Qed.

Lemma validateRoute_error `{env : Env} (r : Route) (err : GoError) (log : list LogLine) :
  validateRoute r = (Done (Some err), log) ->
  (exists msg, err = PlainError msg) \/ (exists c m, SetAction c m = Some err).
Proof.
  unfold validateRoute. destruct (String.eqb (Action r) "404"); [discriminate|].
  destruct (Split (Action r) ".") as [|p0 [|p1 [|p2 ps]]];
    try (unfold ret; intros [= <- _]; left; eexists; reflexivity).
  mfold. intros H. binv H. binv H.
  destruct a0; unfold ret in H; [discriminate|].
  injection H as H _. right. eauto.
Qed.

Lemma routeOfEntry_error_line `{env : Env} (rp content : string) (validate : bool)
    (route : gmap string YamlValue) (e : Error) (log : list LogLine) :
  plainSetAction ->
  routeOfEntry rp content validate route = (Done (inr e), log) ->
  ErrLine e = 0%Z.
Proof.
  intros Hsa. unfold routeOfEntry. mfold. intros H. binv H. binv H.
  destruct (negb (routeMethodPattern_MatchString a0)).
  - binv H. unfold ret in H. injection H as <- _.
    eapply routeError_line; [|exact E1]. discriminate.
  - binv H. binv H. binv H. binv H. destruct a4 as [err|]; [|discriminate].
    binv H. unfold ret in H. injection H as <- _.
    eapply routeError_line; [|exact E5].
    intros e' ->. destruct validate; [|discriminate].
    apply validateRoute_error in E4 as [[msg Hmsg]|(c & m & Hcm)]; [discriminate|].
    eapply Hsa. exact Hcm.
Qed.

Lemma parseLoop_error_line `{env : Env}
    (gm : string -> string -> bool -> M (list Route * option Error))
    (rp content : string) (validate : bool) (entries : list YamlEntry) :
  plainSetAction -> returnsNoLine gm ->
  forall (st : ParseState) routes e log,
    parseLoop gm rp content validate st entries = (Done (routes, Some e), log) ->
    ErrLine e = 0%Z.
Proof.
  intros Hsa Hgm. induction entries as [|entry entries IH]; intros st routes e log.
  - simpl. unfold ret. discriminate.
  - rewrite parseLoop_cons. intros H. binv H. destruct a as [st'|e'].
    + eapply IH. exact H.
    + unfold ret in H. injection H as _ <- _. clear IH.
      destruct entry as [route|]; [|discriminate].
      destruct (importName route) as [name|] eqn:Hi.
      * destruct (parseEntry_import gm rp content validate st route name Hi)
          as (j & p & Heq). rewrite Heq in E. clear Heq.
        binv E. destruct a as [mr [e0|]]; [|discriminate].
        mfold. binv E. binv E. unfold ret in E. injection E as <- _.
        simpl in E2. unfold ret in E2. injection E2 as <- _.
        eapply Hgm. exact E0.
      * destruct (missingOption route) as [key|] eqn:Hm.
        -- rewrite (parseEntry_missing _ _ _ _ _ _ key) in E by assumption.
           mfold. binv E. unfold ret in E. injection E as <- _.
           eapply routeError_line; [|exact E0]. discriminate.
        -- rewrite parseEntry_routeOfEntry in E by assumption.
           binv E. destruct a as [r|e0]; simpl in E; unfold ret in E; [discriminate|].
           injection E as <- _. eapply routeOfEntry_error_line; eassumption.
Qed.

(** No error of the parser carries a line: the line read from the message of
    a YAML error is dropped, and every other error is made with line 0. *)
Theorem parse_errors_have_no_line `{env : Env} (fuel : nat) :
  plainSetAction -> returnsNoLine (parseRoutesFile fuel).
Proof.
  intros Hsa. induction fuel as [|fuel IH]; intros rp joined validate routes e log; simpl;
    [discriminate|].
  destruct (ReadFile rp) as [rerr|content].
  - unfold ret. intros [= _ <- _]. reflexivity.
  - unfold parseRoutesWith. destruct (Unmarshal content) as [yerr|doc].
    + mfold. intros H. binv H. binv H. unfold ret in H. injection H as _ <- _.
      unfold lineFromYamlError in E.
      destruct (Contains _ _); [destruct (_ <? _)%nat; [discriminate|]|];
        unfold ret in E; injection E as <- _;
        (eapply routeError_line; [|exact E0]; discriminate).
    + apply parseLoop_error_line; [assumption|].
      intros name p v rs e' l. unfold getModuleRoutesWith.
      destruct (ModuleByName name).
      * apply IH.
      * mfold. unfold bind, logPrint, ret. discriminate.
Qed.

Lemma parse_errors_have_no_line_witness :
  exists routes e log,
    parseRoutesFile (env := envOf [Some noActionEntry]) 1 routesFile "" true
    = (Done (routes, Some e), log)
    /\ ErrLine e = 0%Z.
Proof.
  assert (Hsa : plainSetAction (env := envOf [Some noActionEntry])).
  { intros c m e. unfold SetAction, envOf, World.tableEnv.
    destruct (bool_decide _); discriminate. }
  eexists _, _, _.
  match goal with
  | |- ?P = (Done (?r, Some ?e), ?l) /\ _ =>
      assert (H : P = (Done (r, Some e), l)) by (vm_compute; reflexivity)
  end.
  split; [exact H|].
  exact (parse_errors_have_no_line (env := envOf [Some noActionEntry]) 1 Hsa _ _ _ _ _ _ H).
Defined.

Lemma NewRoute_fields (method path action rp : string) (params : list string)
    (r : Route) (log : list LogLine) :
  NewRoute method path action rp params = (Done r, log) ->
  Method r = ToUpper method /\ Path r = path /\ Action r = action
  /\ FixedParams r = params /\ routesPath r = rp
  /\ TreePath r = treePath (ToUpper method) path.
Proof.
  unfold NewRoute. cbn [Path]. destruct (HasPrefix path "/"); cbn [negb].
  - destruct (Split action ".") as [|p0 [|p1 [|p2 ps]]];
      unfold ret; intros [= <- _]; repeat split.
  - mfold. unfold bind, logPrint, ret. intros [= <- _]. repeat split.
Qed.

Lemma assertString_done (route : gmap string YamlValue) (key s : string) (log : list LogLine) :
  assertString (default YNull (route !! key)) = (Done s, log) ->
  stringAt route key = Some s.
Proof.
  unfold stringAt. destruct (route !! key) as [[]|]; try discriminate.
  simpl. unfold ret. intros [= <- _]. reflexivity.
Qed.

Lemma params_done (route : gmap string YamlValue) (ps : list string) (log : list LogLine) :
  match route !! "params" with
  | Some (YSeq vals) => paramStrings vals []
  | Some _ => panic TypeAssertion
  | None => ret []
  end = (Done ps, log) ->
  fixedParamsOf route = Some ps.
Proof.
  unfold fixedParamsOf. destruct (route !! "params") as [[]|]; try discriminate.
  - destruct (stringsOf l) as [ss|] eqn:E.
    + rewrite (paramStrings_ok _ ss) by assumption. unfold ret. intros [= <- _]. reflexivity.
    + rewrite paramStrings_panic by assumption. discriminate.
  - unfold ret. intros [= <- _]. reflexivity.
Qed.

Lemma routeOfEntry_route `{env : Env} (rp content : string) (validate : bool)
    (route : gmap string YamlValue) (r : Route) (log : list LogLine) :
  routeOfEntry rp content validate route = (Done (inl r), log) ->
  entryRoute rp route r.
Proof.
  unfold routeOfEntry. mfold. intros H. binv H. binv H.
  destruct (negb (routeMethodPattern_MatchString a0)).
  - binv H. discriminate.
  - binv H. binv H. binv H. binv H. destruct a4 as [err|].
    + binv H. discriminate.
    + unfold ret in H. injection H as <- _.
      apply NewRoute_fields in E3 as (Hm & Hp & Ha & Hf & Hr & Ht).
      exists a0. rewrite Hp, Ha, Hf, Hm.
      repeat split; eauto using assertString_done, params_done.
Qed.

(** A document without import entries that parses gives one route for each
    entry that is not null, in the order of the document, after the routes
    the loop already had; each route has the method of its entry in capitals,
    its path, action and fixed parameters as written, and the routes file as
    provenance. *)
Theorem routes_mirror_entries `{env : Env}
    (gm : string -> string -> bool -> M (list Route * option Error))
    (rp content : string) (validate : bool) (entries : list YamlEntry)
    (st : ParseState) (routes : list Route) (log : list LogLine) :
  (forall route, In (Some route) entries -> importName route = None) ->
  parseLoop gm rp content validate st entries = (Done (routes, None), log) ->
  exists new,
    routes = psRoutes st ++ new
    /\ Forall2 (entryRoute rp) (omap id entries) new.
Proof.
  revert st log. induction entries as [|entry entries IH]; intros st log Himp.
  - simpl. unfold ret. intros [= <- _]. exists []. rewrite app_nil_r. split; constructor.
  - rewrite parseLoop_cons. intros H. binv H. destruct a as [st'|e]; [|discriminate].
    destruct (IH st' l0) as (new & Hr & Hf); [intros; apply Himp; right; assumption
                                             |assumption|].
    destruct entry as [route|].
    + rewrite parseEntry_routeOfEntry in E.
      * binv E. destruct a as [r|e]; simpl in E; unfold ret in E; [|discriminate].
        injection E as <- _. simpl in Hr. exists (r :: new). split.
        -- rewrite Hr, <- app_assoc. reflexivity.
        -- simpl. constructor; [|assumption]. eapply routeOfEntry_route. exact E0.
      * apply Himp. left. reflexivity.
      * destruct (missingOption route) as [key|] eqn:Hm; [|reflexivity].
        rewrite (parseEntry_missing _ _ _ _ _ _ key) in E;
          [|apply Himp; left; reflexivity|assumption].
        mfold. binv E. discriminate.
    + simpl in E. unfold ret in E. injection E as <- _. exists new. split; assumption.
Qed.

Lemma routes_mirror_entries_witness :
  exists routes log new,
    parseLoop (env := envOf goodDoc) (fun _ _ _ => ret ([], None)) routesFile "routes" true
              {| psJoinedPath := ""; psRoutes := [] |} goodDoc
    = (Done (routes, None), log)
    /\ routes = [] ++ new
    /\ Forall2 (entryRoute routesFile) (omap id goodDoc) new.
Proof.
  assert (Himp : forall route, In (Some route) goodDoc -> importName route = None).
  { intros route Hin. unfold goodDoc in Hin. simpl in Hin.
    destruct Hin as [H|[H|[H|[]]]]; injection H as <-; vm_compute; reflexivity. }
  eexists _, _.
  match goal with
  | |- exists new, ?P = (Done (?r, None), ?l) /\ _ =>
      assert (H : P = (Done (r, None), l)) by (vm_compute; reflexivity)
  end.
  destruct (routes_mirror_entries (env := envOf goodDoc) _ _ _ _ _ _ _ _ Himp H)
    as (new & Hr & Hf).
  exists new. split; [exact H|]. split; assumption.
Defined.

Lemma bind_logged_ret {A B} (f : A -> M B) (a : A) (l : list LogLine) :
  bind f (logged l (ret a)) = logged l (f a).
Proof. unfold logged, ret, bind. simpl. destruct (f a). rewrite app_nil_r. reflexivity. Qed.

(** An import of a module that is not active adds no route: the loop logs
    one INFO line and goes on as if the entry were not there. *)
Theorem inactive_module_import_skipped `{env : Env} (fuel : nat)
    (rp content : string) (validate : bool) (st : ParseState)
    (route : gmap string YamlValue) (name : string) (rest : list YamlEntry) :
  importName route = Some name ->
  ModuleByName name = None ->
  parseLoop (getModuleRoutes fuel) rp content validate st (Some route :: rest)
  = logged [(INFO, ("Skipping routes for inactive module " ++ name ++ newline)%string)]
           (parseLoop (getModuleRoutes fuel) rp content validate st rest).
Proof.
  intros Hi Hm. rewrite parseLoop_cons.
  destruct (parseEntry_import (getModuleRoutes fuel) rp content validate st route name Hi)
    as (j & p & ->).
  assert (Hg : getModuleRoutes fuel name p validate
               = logged [(INFO, ("Skipping routes for inactive module " ++ name ++ newline)%string)]
                        (ret ([], None))).
  { unfold getModuleRoutes, getModuleRoutesWith. rewrite Hm. reflexivity. }
  rewrite Hg, bind_assoc.
  rewrite bind_logged_ret, bind_ret. f_equal.
  apply parseLoop_joined_blind; [apply getModuleRoutes_prefix_blind|].
  simpl. apply app_nil_r.
Qed.

Lemma inactive_module_import_skipped_witness :
  parseLoop (env := envOf []) (getModuleRoutes (env := envOf []) 1) routesFile "routes" true
            {| psJoinedPath := ""; psRoutes := [] |}
            [Some (list_to_map [("import", YString "testrunner")]); Some usersEntry]
  = logged [(INFO, ("Skipping routes for inactive module testrunner" ++ newline)%string)]
           (parseLoop (env := envOf []) (getModuleRoutes (env := envOf []) 1) routesFile "routes" true
                      {| psJoinedPath := ""; psRoutes := [] |} [Some usersEntry]).
Proof.
  apply (inactive_module_import_skipped (env := envOf []) 1); vm_compute; reflexivity.
Defined.

(** The error of an imported module comes back as it is, not wrapped again;
    when its text holds the word YAML and is shorter than 17 bytes, the
    slice in [lineFromYamlError] panics instead. *)
Theorem nested_error_returned_unchanged `{env : Env}
    (gm : string -> string -> bool -> M (list Route * option Error))
    (rp content : string) (validate : bool) (st : ParseState)
    (route : gmap string YamlValue) (name : string) (rest : list YamlEntry)
    (rs : list Route) (e : Error) (log : list LogLine) :
  importName route = Some name ->
  (forall prefix, gm name prefix validate = (Done (rs, Some e), log)) ->
  parseLoop gm rp content validate st (Some route :: rest)
  = (if Contains (ErrorString e) "YAML" && (String.length (ErrorString e) <? 17)%nat
     then Panic SliceOutOfRange else Done ([], Some e), log).
Proof.
  intros Hi Hgm. rewrite parseLoop_cons.
  destruct (parseEntry_import gm rp content validate st route name Hi) as (j & p & ->).
  rewrite Hgm, bind_assoc, bind_logged. mfold.
  unfold lineFromYamlError, errorText.
  destruct (Contains (ErrorString e) "YAML"); simpl andb.
  - destruct (String.length (ErrorString e) <? 17)%nat.
    + rewrite !bind_panic. unfold logged, panic. simpl. rewrite app_nil_r. reflexivity.
    + rewrite !bind_ret. simpl routeError. rewrite !bind_ret.
      unfold logged, ret. simpl. rewrite app_nil_r. reflexivity.
  - rewrite !bind_ret. simpl routeError. rewrite !bind_ret.
    unfold logged, ret. simpl. rewrite app_nil_r. reflexivity.
Qed.

Lemma nested_error_returned_unchanged_witness :
  let e := {| Title := "Failed to load routes file"; Description := "no such file";
              ErrPath := ""; ErrLine := 0; SourceLines := [] |} in
  parseLoop (env := envOf []) (fun _ _ _ => (Done ([], Some e), [])) routesFile "routes" true
            {| psJoinedPath := ""; psRoutes := [] |}
            [Some (list_to_map [("import", YString "static")]); Some usersEntry]
  = (Done ([], Some e), []).
Proof.
  intros e.
  apply (nested_error_returned_unchanged (env := envOf [])
           (fun _ _ _ => (Done ([], Some e), [])) routesFile "routes" true
           {| psJoinedPath := ""; psRoutes := [] |}
           (list_to_map [("import", YString "static")]) "static" [Some usersEntry] [] e []).
  - vm_compute. reflexivity.
  - intros prefix. reflexivity.
Defined.



Lemma NewRoute_done (method path action rp : string) (params : list string) :
  exists r,
    NewRoute method path action rp params
    = (Done r, if HasPrefix path "/" then [] else [(ERROR, "Absolute URL required.")])
    /\ Action r = action.
Proof.
  unfold NewRoute. cbn [Path]. destruct (HasPrefix path "/"); cbn [negb].
  - destruct (Split action ".") as [|p0 [|p1 [|p2 ps]]]; eexists; split; reflexivity.
  - eexists. split; reflexivity.
Qed.

Lemma Split_404 : forall c m : string, Split "404" "." <> [c; m].
Proof. intros c m. vm_compute. discriminate. Qed.

(** An action with an empty controller part, or with an empty method part
    after a controller that is no placeholder, makes the validation read the
    first byte of an empty string: a validating parse of the entry panics. *)
Theorem empty_action_part_panics `{env : Env}
    (gm : string -> string -> bool -> M (list Route * option Error))
    (rp content : string) (st : ParseState) (rest : list YamlEntry)
    (route : gmap string YamlValue) (params : list string)
    (method path action c m : string) :
  importName route = None ->
  fixedParamsOf route = Some params ->
  stringAt route "method" = Some method ->
  stringAt route "path" = Some path ->
  stringAt route "action" = Some action ->
  routeMethodPattern_MatchString method = true ->
  Split action "." = [c; m] ->
  c = "" \/ (isPlaceholder c = false /\ m = "") ->
  parseLoop gm rp content true st (Some route :: rest)
  = (Panic IndexOutOfRange,
     if HasPrefix path "/" then [] else [(ERROR, "Absolute URL required.")]).
Proof.
  intros Hi Hp Hm Hpa Ha Hv Hs Hc.
  rewrite parseLoop_cons.
  rewrite (parseEntry_typed _ _ _ _ _ _ params method path action) by assumption.
  destruct (NewRoute_done method path action rp params) as (r & -> & Har).
  clear Ha.
  rewrite bind_assoc, bind_logged. mfold.
  assert (Hval : validateRoute r = panic IndexOutOfRange).
  { unfold validateRoute. rewrite Har.
    destruct (String.eqb action "404") eqn:E4.
    - apply String.eqb_eq in E4. rewrite E4 in Hs. destruct (Split_404 _ _ Hs).
    - rewrite Hs. mfold. destruct Hc as [->|[Hph ->]]; [reflexivity|].
      unfold firstIsM. unfold isPlaceholder in Hph.
      destruct (firstIs c ":") as [[|]|]; try discriminate; reflexivity. }
  rewrite Hval, !bind_panic. unfold logged, panic. simpl. rewrite app_nil_r. reflexivity.
Qed.

Lemma empty_action_part_panics_witness :
  parseLoop (env := envOf []) (fun _ _ _ => ret ([], None)) routesFile "routes" true
            {| psJoinedPath := ""; psRoutes := [] |}
            [Some (list_to_map [("method", YString "GET"); ("path", YString "/x");
                                ("action", YString "Users.")])]
  = (Panic IndexOutOfRange, []).
Proof.
  apply (empty_action_part_panics (env := envOf []) (fun _ _ _ => ret ([], None))
           routesFile "routes" {| psJoinedPath := ""; psRoutes := [] |} []
           (list_to_map [("method", YString "GET"); ("path", YString "/x");
                         ("action", YString "Users.")])
           [] "GET" "/x" "Users." "Users" "");
    try (vm_compute; reflexivity).
  right. split; reflexivity.
Defined.

(** ** More about routes and reverse routing *)

Lemma Join_Split (s : string) (sep : ascii) :
  Join (Split s sep) (String sep EmptyString) = s.
Proof.
  unfold Join. induction s as [|c s IH]; [reflexivity|].
  cbn [Split]. destruct (Ascii.eqb c sep) eqn:E.
  - apply Ascii.eqb_eq in E. subst c.
    destruct (Split s sep) as [|p ps] eqn:Es; [destruct (Split_not_nil _ _ Es)|].
    change (String.concat (String sep "") ("" :: p :: ps))
      with (String sep (String.concat (String sep "") (p :: ps))).
    rewrite IH. reflexivity.
  - destruct (Split s sep) as [|p ps] eqn:Es; [destruct (Split_not_nil _ _ Es)|].
    destruct ps as [|q qs].
    + simpl in IH. subst p. reflexivity.
    + change (String.concat (String sep "") (String c p :: q :: qs))
        with (String c (String.concat (String sep "") (p :: q :: qs))).
      rewrite IH. reflexivity.
Qed.

Lemma NewRoute_names (method path action rp : string) (params : list string)
    (r : Route) (log : list LogLine) :
  NewRoute method path action rp params = (Done r, log) ->
  ControllerName r <> "" \/ MethodName r <> "" ->
  HasPrefix path "/" = true
  /\ Split action "." = [ControllerName r; MethodName r]
  /\ log = [].
Proof.
  unfold NewRoute. cbn [Path]. destruct (HasPrefix path "/"); cbn [negb].
  - destruct (Split action ".") as [|p0 [|p1 [|p2 ps]]];
      unfold ret; intros [= <- <-]; simpl; intros [H|H]; try congruence; auto.
  - mfold. unfold bind, logPrint, ret. intros [= <- _]. simpl. intros [H|H]; congruence.
Qed.

(** The controller and method names of a route are recorded only for a path
    with a leading slash and an action of two parts, and then the action is
    the two names joined by a dot. *)
Theorem new_route_names_rebuild_action (method path action rp : string)
    (params : list string) (r : Route) (log : list LogLine) :
  NewRoute method path action rp params = (Done r, log) ->
  ControllerName r <> "" \/ MethodName r <> "" ->
  HasPrefix (Path r) "/" = true
  /\ Split (Action r) "." = [ControllerName r; MethodName r]
  /\ Action r = (ControllerName r ++ "." ++ MethodName r)%string
  /\ log = [].
Proof.
  intros H Hn. destruct (NewRoute_names _ _ _ _ _ _ _ H Hn) as (Hp & Hs & Hl).
  apply NewRoute_fields in H as (_ & -> & -> & _).
  split; [assumption|]. split; [assumption|]. split; [|assumption].
  rewrite <- (Join_Split action ".") at 1. rewrite Hs. reflexivity.
Qed.

Lemma new_route_names_rebuild_action_witness :
  exists r,
    NewRoute "get" "/users/:id" "Users.Show" routesFile [] = (Done r, [])
    /\ Split (Action r) "." = [ControllerName r; MethodName r]
    /\ Action r = (ControllerName r ++ "." ++ MethodName r)%string.
Proof.
  eexists.
  match goal with
  | |- ?P = (Done ?r, []) /\ _ =>
      assert (H : P = (Done r, [])) by (vm_compute; reflexivity)
  end.
  split; [exact H|].
  destruct (new_route_names_rebuild_action _ _ _ _ _ _ _ H) as (_ & Hs & Ha & _).
  - left. discriminate.
  - split; assumption.
Defined.

Lemma find_In_some {A} (f : A -> bool) (l : list A) (x : A) :
  In x l -> f x = true -> exists y, List.find f l = Some y.
Proof.
  induction l as [|a l IH]; [intros []|]. simpl.
  intros [->|Hin] Hf.
  - rewrite Hf. eauto.
  - destruct (f a); eauto.
Qed.

(** Reverse routing answers the action of every route of the list that has
    a controller and a method name, given an argument map that is not nil. *)
Theorem reverse_finds_own_action {Node} (router : Router Node)
    (method path action rp : string) (params : list string) (r : Route)
    (log : list LogLine) (l : positive) (h : Heap) :
  NewRoute method path action rp params = (Done r, log) ->
  In r (Routes router) ->
  ControllerName r <> "" -> MethodName r <> "" ->
  exists ad h' log',
    Router_Reverse router (Action r) (Some l) h = (Done (Some ad, h'), log')
    /\ adAction ad = Action r.
Proof.
  intros H Hin Hc Hm.
  destruct (NewRoute_names _ _ _ _ _ _ _ H (or_introl Hc)) as (_ & Hs & _).
  apply NewRoute_fields in H as (_ & _ & Ha & _). rewrite <- Ha in Hs.
  destruct (find_In_some (reverseMatches (ControllerName r) (MethodName r))
              (Routes router) r Hin) as [w Hw].
  { unfold reverseMatches.
    apply String.eqb_neq in Hc, Hm. rewrite Hc, Hm, !String.eqb_refl, !orb_true_r.
    reflexivity. }
  unfold Router_Reverse. rewrite Hs, (reverseLoop_winner _ _ _ _ _ _ _ Hw).
  destruct (reverseWith_done w (Action r) (ControllerName r) (MethodName r) (Some l) h)
    as (els' & log' & E & _); [discriminate|].
  eexists _, _, _. split; [exact E|reflexivity].
Qed.

Lemma reverse_finds_own_action_witness :
  exists ad h' log',
    Router_Reverse (routerOf goodDoc) "Users.Show" (Some 1%positive) ∅
    = (Done (Some ad, h'), log')
    /\ adAction ad = "Users.Show".
Proof.
  assert (H : NewRoute "GET" "/users/:id" "Users.Show" routesFile []
              = (Done {| Method := "GET"; Path := "/users/:id"; Action := "Users.Show";
                         ControllerName := "Users"; MethodName := "Show";
                         FixedParams := []; TreePath := "/GET/users/:id";
                         routesPath := routesFile; line := 0 |}, []))
    by (vm_compute; reflexivity).
  apply (reverse_finds_own_action (routerOf goodDoc) _ _ _ _ _ _ _ 1%positive ∅ H).
  - vm_compute. left. reflexivity.
  - discriminate.
  - discriminate.
Defined.

Lemma reverseLoop_none (routes : list Route) (action c m : string)
    (argValues : MapRef) (h : Heap) :
  winner c m routes = None ->
  reverseLoop routes action c m argValues h
  = (Done (None, h),
     [(ERROR, ("Failed to find reverse route: " ++ action ++ " "
               ++ showMap (mapContent h argValues) ++ newline)%string)]).
Proof.
  unfold winner. induction routes as [|r routes IH]; simpl; [reflexivity|].
  unfold reverseMatches at 1.
  destruct (String.eqb (ControllerName r) "" || String.eqb (MethodName r) "") eqn:He; simpl.
  - exact IH.
  - apply orb_false_iff in He as [Hc Hm].
    apply String.eqb_neq in Hc, Hm.
    assert (E1 : firstIsM (ControllerName r) ":" = ret (isPlaceholder (ControllerName r))).
    { unfold firstIsM, isPlaceholder. destruct (ControllerName r); [congruence|reflexivity]. }
    assert (E2 : firstIsM (MethodName r) ":" = ret (isPlaceholder (MethodName r))).
    { unfold firstIsM, isPlaceholder. destruct (MethodName r); [congruence|reflexivity]. }
    mfold. rewrite E1, bind_ret, E2, bind_ret.
    destruct (isPlaceholder (ControllerName r)), (isPlaceholder (MethodName r)); simpl;
      repeat match goal with
      | |- context [String.eqb ?a ?b] => destruct (String.eqb a b) eqn:?; simpl
      end;
      try exact IH; discriminate.
Qed.

Lemma reverseWith_some (route : Route) (action c m : string) (cw mw : bool)
    (argValues : MapRef) (h h' : Heap) (log : list LogLine) :
  reverseWith route action c m cw mw argValues h <> (Done (None, h'), log).
Proof.
  unfold reverseWith. mfold. intros H. binv H. binv H. binv H.
  destruct a1 as [els h2]. discriminate.
Qed.

(** A reverse lookup that returns nil has not touched the heap: the action
    did not split into two parts, or no route of the list answers it, and the
    only effect is one ERROR line. *)
Theorem reverse_failure_leaves_map {Node} (router : Router Node) (action : string)
    (argValues : MapRef) (h h' : Heap) (log : list LogLine) :
  Router_Reverse router action argValues h = (Done (None, h'), log) ->
  h' = h
  /\ ((length (Split action ".") <> 2
       /\ log = [(ERROR, ("revel/router: reverse router got invalid action "
                          ++ action)%string)])
      \/ (exists c m,
             Split action "." = [c; m] /\ winner c m (Routes router) = None
             /\ log = [(ERROR, ("Failed to find reverse route: " ++ action ++ " "
                                ++ showMap (mapContent h argValues) ++ newline)%string)])).
Proof.
  unfold Router_Reverse.
  destruct (Split action ".") as [|c [|m [|x xs]]] eqn:Hs;
    try (mfold; unfold bind, logPrint, ret; intros [= <- <-]; split; [reflexivity|];
         left; split; [simpl; lia|reflexivity]).
  destruct (winner c m (Routes router)) as [w|] eqn:Hw.
  - rewrite (reverseLoop_winner _ _ _ _ _ _ _ Hw). intros H.
    destruct (reverseWith_some _ _ _ _ _ _ _ _ _ _ H).
  - rewrite reverseLoop_none by assumption. intros [= <- <-].
    split; [reflexivity|]. right. exists c, m. auto.
Qed.

Lemma reverse_failure_leaves_map_witness :
  exists h' log,
    Router_Reverse (routerOf goodDoc) "Users.Delete" (Some 1%positive)
                   {[ 1%positive := {[ "id" := "42" ]} ]}
    = (Done (None, h'), log)
    /\ h' = {[ 1%positive := {[ "id" := "42" ]} ]}.
Proof.
  eexists _, _.
  match goal with
  | |- ?P = (Done (None, ?h'), ?l) /\ _ =>
      assert (H : P = (Done (None, h'), l)) by (vm_compute; reflexivity)
  end.
  split; [exact H|].
  exact (proj1 (reverse_failure_leaves_map _ _ _ _ _ _ H)).
Defined.

(** With the nil map for arguments, a reverse lookup whose winning route has
    a placeholder for its controller or its method panics: the binding of the
    placeholder is a write to the nil map. *)
Theorem reverse_nil_map_placeholder_panics {Node} (router : Router Node)
    (action c m : string) (h : Heap) (route : Route) :
  Split action "." = [c; m] ->
  winner c m (Routes router) = Some route ->
  isPlaceholder (ControllerName route) = true \/ isPlaceholder (MethodName route) = true ->
  Router_Reverse router action None h = (Panic NilMapWrite, []).
Proof.
  intros Hs Hw Hp. unfold Router_Reverse. rewrite Hs, (reverseLoop_winner _ _ _ _ _ _ _ Hw).
  unfold reverseWith. mfold.
  destruct (isPlaceholder (ControllerName route)); [reflexivity|].
  destruct Hp as [Hp|Hp]; [discriminate|]. rewrite Hp, bind_ret. reflexivity.
Qed.

Lemma reverse_nil_map_placeholder_panics_witness :
  Router_Reverse (mkRouter [{| Method := "GET"; Path := "/:controller/:id";
                               Action := ":controller.Show";
                               ControllerName := ":controller"; MethodName := "Show";
                               FixedParams := []; TreePath := "/GET/:controller/:id";
                               routesPath := routesFile; line := 0 |}]
                           SpecTree.New routesFile)
                 "Users.Show" None ∅
  = (Panic NilMapWrite, []).
Proof.
  eapply (reverse_nil_map_placeholder_panics _ "Users.Show" "Users" "Show").
  - reflexivity.
  - vm_compute. reflexivity.
  - left. reflexivity.
Defined.

Lemma substPath_supplied (l : positive) (pathElements : list string) :
  forall (h : Heap) (m : gmap string string),
    h !! l = Some m ->
    NoDup (pathArgNames pathElements) ->
    (forall k, In k (pathArgNames pathElements) -> is_Some (m !! k)) ->
    substPath (Some l) pathElements h
    = (Done (map (substituted m) pathElements,
             consumedHeap (pathArgNames pathElements) (Some l) h), []).
Proof.
  induction pathElements as [|el els IH]; intros h m Hl Hnd Hin; [reflexivity|].
  cbn [substPath map]. rewrite pathArgNames_cons in *. unfold substituted at 1.
  unfold isPlaceholder at 1 2.
  destruct (firstIs el ":") as [[|]|] eqn:Hf.
  1: { assert (Hp : isPlaceholder el = true) by (unfold isPlaceholder; rewrite Hf; reflexivity).
       rewrite Hp in Hnd, Hin. apply NoDup_cons in Hnd as [Hnot Hnd].
       destruct (Hin (tail el) (or_introl eq_refl)) as [v Hv].
       unfold mapRead, deref. rewrite Hl. simpl default. rewrite Hv. mfold. rewrite bind_ret.
       cbn [consumedHeap foldl].
       assert (Hl1 : mapDelete h (Some l) (tail el) !! l = Some (delete (tail el) m)).
       { unfold mapDelete, deref. rewrite Hl. apply lookup_insert_eq. }
       rewrite (IH _ _ Hl1 Hnd).
       - mred.
         assert (Hmap : map (substituted (delete (tail el) m)) els
                        = map (substituted m) els).
         { apply map_ext_in. intros el' Hel'. unfold substituted.
           destruct (isPlaceholder el') eqn:Hp'; [|reflexivity].
           rewrite lookup_delete_ne; [reflexivity|].
           intros Heq. apply Hnot. apply list_elem_of_In. rewrite Heq.
           unfold pathArgNames. apply in_map. apply list_elem_of_In, list_elem_of_filter.
           split; [assumption|]. apply list_elem_of_In. assumption. }
         rewrite Hmap. reflexivity.
       - intros k Hk. rewrite lookup_delete_ne; [apply Hin; right; assumption|].
         intros <-. apply Hnot. apply list_elem_of_In. assumption. }
  all: assert (Hp : isPlaceholder el = false) by (unfold isPlaceholder; rewrite Hf; reflexivity);
    rewrite Hp in Hnd, Hin; mfold; rewrite (IH h m Hl Hnd Hin); mred; reflexivity.
Qed.

Lemma reverseWith_unfold (route : Route) (action c m : string) (l : positive) (h : Heap) :
  reverseWith route action c m (isPlaceholder (ControllerName route))
              (isPlaceholder (MethodName route)) (Some l) h
  = bind (fun '(pathElements, h2) =>
            ret (Some {| Host := "TODO";
                         adMethod := if String.eqb (Method route) "*" then "GET"
                                     else Method route;
                         Url := reverseUrl pathElements (mapContent h2 (Some l));
                         adAction := action;
                         Star := String.eqb (Method route) "*";
                         Args := Some l |}, h2))
         (substPath (Some l) (Split (Path route) "/") (boundHeap route c m (Some l) h)).
Proof.
  unfold reverseWith, boundHeap. mfold.
  destruct (isPlaceholder (ControllerName route)), (isPlaceholder (MethodName route));
    repeat (rewrite mapWrite_some || rewrite bind_ret); reflexivity.
Qed.

(** When every [:name] segment of the winning route has its argument in the
    map (after the placeholders of the action are bound) and no name comes
    twice, the reverse lookup logs nothing: the URL is the path with each
    such segment replaced by its argument, followed by the query string of
    the arguments left, and the caller's map keeps the arguments left. *)
Theorem reverse_url_of_supplied_args {Node} (router : Router Node)
    (action c m : string) (l : positive) (h : Heap) (m0 : gmap string string)
    (route : Route) :
  Split action "." = [c; m] ->
  winner c m (Routes router) = Some route ->
  h !! l = Some m0 ->
  let args := boundArgs route c m m0 in
  let names := pathArgNames (Split (Path route) "/") in
  NoDup names ->
  (forall k, In k names -> is_Some (args !! k)) ->
  Router_Reverse router action (Some l) h
  = (Done (Some {| Host := "TODO";
                   adMethod := if String.eqb (Method route) "*" then "GET"
                               else Method route;
                   Url := reverseUrl (map (substituted args) (Split (Path route) "/"))
                                     (consumed names args);
                   adAction := action;
                   Star := String.eqb (Method route) "*";
                   Args := Some l |},
           <[l := consumed names args]> h), []).
Proof.
  intros Hs Hw Hl args names Hnd Hin.
  unfold Router_Reverse. rewrite Hs, (reverseLoop_winner _ _ _ _ _ _ _ Hw).
  rewrite reverseWith_unfold, (boundHeap_alloc _ _ _ _ _ _ Hl). fold args.
  rewrite (substPath_supplied l _ _ args) by (assumption || apply lookup_insert_eq).
  fold names. mred.
  rewrite (consumedHeap_alloc _ _ _ args) by apply lookup_insert_eq.
  rewrite insert_insert_eq. unfold mapContent. rewrite deref_insert. reflexivity.
Qed.

Lemma reverse_url_of_supplied_args_witness :
  exists ad,
    Router_Reverse (routerOf goodDoc) "Users.Show" (Some 1%positive)
                   {[ 1%positive := {[ "id" := "42" ]} ]}
    = (Done (Some ad, {[ 1%positive := ∅ ]}), [])
    /\ Url ad = "/users/42".
Proof.
  assert (Hs : Split "Users.Show" "." = ["Users"; "Show"]) by reflexivity.
  assert (Hw : winner "Users" "Show" (Routes (routerOf goodDoc))
               = Some {| Method := "GET"; Path := "/users/:id"; Action := "Users.Show";
                         ControllerName := "Users"; MethodName := "Show";
                         FixedParams := []; TreePath := "/GET/users/:id";
                         routesPath := routesFile; line := 0 |})
    by (vm_compute; reflexivity).
  assert (Hl : ({[ 1%positive := {[ "id" := "42" ]} ]} : Heap) !! 1%positive
               = Some ({[ "id" := "42" ]} : gmap string string))
    by apply lookup_singleton_eq.
  eexists. rewrite (reverse_url_of_supplied_args _ _ _ _ _ _ _ _ Hs Hw Hl).
  - split; vm_compute; reflexivity.
  - vm_compute. repeat constructor. intros H. inversion H.
  - intros k Hk. vm_compute in Hk. destruct Hk as [<-|[]]. eexists. vm_compute. reflexivity.
Defined.

(** ** More about the forward lookup *)

Lemma fillParams_lookups (ws : list string) :
  NoDup ws ->
  forall (exps : list string) (i : nat) (acc : gmap string (list string)),
    i + length exps <= length ws ->
    exists params,
      fillParams ws i exps acc = ret params
      /\ (forall j w v, ws !! (i + j) = Some w -> exps !! j = Some v ->
                        params !! w = Some [v])
      /\ (forall k, (forall j, j < length exps -> ws !! (i + j) <> Some k) ->
                    params !! k = acc !! k).
Proof.
  intros Hnd exps. induction exps as [|v exps IH]; intros i acc Hlen.
  - exists acc. split; [reflexivity|]. split; [|reflexivity].
    intros j w v _ H. destruct j; discriminate.
  - simpl in Hlen. cbn [fillParams].
    destruct (ws !! i) as [name|] eqn:Hi.
    2: { apply lookup_ge_None in Hi. lia. }
    destruct (IH (S i) (<[name := [v]]> acc)) as (params & E & Hset & Hother); [lia|].
    exists params. split; [exact E|]. split.
    + intros [|j] w v' Hw Hv.
      * rewrite Nat.add_0_r in Hw. simpl in Hv. injection Hv as <-.
        rewrite Hi in Hw. injection Hw as <-.
        rewrite Hother; [apply lookup_insert_eq|].
        intros j Hj Hc.
        pose proof (NoDup_lookup _ _ _ _ Hnd Hi Hc). lia.
      * apply (Hset j w v'); [|exact Hv].
        replace (S i + j) with (i + S j) by lia. exact Hw.
    + intros k Hk. rewrite Hother.
      * apply lookup_insert_ne. intros ->. apply (Hk 0); [simpl; lia|].
        rewrite Nat.add_0_r. exact Hi.
      * intros j Hj. replace (S i + j) with (i + S j) by lia. apply Hk. simpl. lia.
Qed.

Lemma resolveName_cases (params : gmap string (list string)) (name : string) :
  name <> "" ->
  (isPlaceholder name = false -> resolveName params name = ret name)
  /\ (forall v, isPlaceholder name = true -> params !! tail name = Some [v] ->
                resolveName params name = ret v).
Proof.
  intros Hne. destruct name as [|c0 s]; [congruence|].
  unfold resolveName, firstIsM, isPlaceholder. cbn [firstIs]. mfold.
  split.
  - intros ->. mred. reflexivity.
  - intros v -> Hv. mred. rewrite Hv. reflexivity.
Qed.

(** A leaf found with as many captured values as it has names, all names
    different, gives a match whose parameters map each name to the one value
    captured for it and nothing else; the controller and the method are the
    names of the route, or the captured values when they are placeholders
    among the names of the leaf; the field Action of the match stays empty. *)
Theorem route_match_of_captures (l : Leaf) (exps : list string) :
  let route := Value l in
  length exps = length (Wildcards l) ->
  NoDup (Wildcards l) ->
  Action route <> "404" ->
  ControllerName route <> "" -> MethodName route <> "" ->
  (isPlaceholder (ControllerName route) = true ->
   In (tail (ControllerName route)) (Wildcards l)) ->
  (isPlaceholder (MethodName route) = true ->
   In (tail (MethodName route)) (Wildcards l)) ->
  exists params cn mn,
    routeLeaf l exps
    = ret (Some {| rmAction := ""; rmControllerName := cn; rmMethodName := mn;
                   rmFixedParams := FixedParams route; rmParams := params |})
    /\ (forall j w v, Wildcards l !! j = Some w -> exps !! j = Some v ->
                      params !! w = Some [v])
    /\ (forall k, ~ In k (Wildcards l) -> params !! k = None)
    /\ (if isPlaceholder (ControllerName route)
        then params !! tail (ControllerName route) = Some [cn]
        else cn = ControllerName route)
    /\ (if isPlaceholder (MethodName route)
        then params !! tail (MethodName route) = Some [mn]
        else mn = MethodName route).
Proof.
  intros route Hlen Hnd H404 Hc Hm Hcw Hmw.
  destruct (fillParams_lookups (Wildcards l) Hnd exps 0 ∅) as (params & E & Hset & Hother);
    [simpl; lia|].
  assert (Hcap : forall k, In k (Wildcards l) -> exists v, params !! k = Some [v]).
  { intros k Hk. apply list_elem_of_In in Hk.
    apply list_elem_of_lookup_1 in Hk as [j Hj].
    destruct (exps !! j) as [v|] eqn:Hv.
    - exists v. eapply Hset; eassumption.
    - apply lookup_ge_None in Hv. apply lookup_lt_Some in Hj. lia. }
  assert (Hres : forall name, name <> "" ->
             (isPlaceholder name = true -> In (tail name) (Wildcards l)) ->
             exists x, resolveName params name = ret x
                       /\ (if isPlaceholder name then params !! tail name = Some [x]
                           else x = name)).
  { intros name Hne Hw. destruct (resolveName_cases params name Hne) as [Hlit Hph].
    destruct (isPlaceholder name) eqn:Hp.
    - destruct (Hcap _ (Hw eq_refl)) as [v Hv]. exists v. split; [|exact Hv].
      apply Hph; [reflexivity|exact Hv].
    - exists name. split; [apply Hlit|]; reflexivity. }
  destruct (Hres _ Hc Hcw) as (cn & Ecn & Hcn).
  destruct (Hres _ Hm Hmw) as (mn & Emn & Hmn).
  exists params, cn, mn. split; [|split; [|split; [|split]]].
  - unfold routeLeaf. fold route. mfold. rewrite E, bind_ret.
    apply String.eqb_neq in H404. rewrite H404, Ecn, bind_ret, Emn, bind_ret. reflexivity.
  - intros j w v Hw Hv. apply (Hset j w v); assumption.
  - intros k Hk. rewrite Hother; [apply lookup_empty|].
    intros j _ Hj. apply Hk. simpl in Hj. apply list_elem_of_In.
    eapply list_elem_of_lookup_2. exact Hj.
  - exact Hcn.
  - exact Hmn.
Qed.

Lemma route_match_of_captures_witness :
  exists params cn mn,
    routeLeaf {| Value := {| Method := "GET"; Path := "/:controller/:id";
                             Action := ":controller.Show";
                             ControllerName := ":controller"; MethodName := "Show";
                             FixedParams := ["x"]; TreePath := "/GET/:controller/:id";
                             routesPath := routesFile; line := 0 |};
                 Wildcards := ["controller"; "id"] |} ["Users"; "42"]
    = ret (Some {| rmAction := ""; rmControllerName := cn; rmMethodName := mn;
                   rmFixedParams := ["x"]; rmParams := params |})
    /\ params !! "controller" = Some [cn] /\ mn = "Show".
Proof.
  edestruct (route_match_of_captures
               {| Value := {| Method := "GET"; Path := "/:controller/:id";
                              Action := ":controller.Show";
                              ControllerName := ":controller"; MethodName := "Show";
                              FixedParams := ["x"]; TreePath := "/GET/:controller/:id";
                              routesPath := routesFile; line := 0 |};
                  Wildcards := ["controller"; "id"] |} ["Users"; "42"])
    as (params & cn & mn & E & _ & _ & Hc & Hm).
  - reflexivity.
  - simpl. repeat constructor; simpl; intros H; inversion H; subst;
      match goal with H' : _ ∈ _ |- _ => inversion H' end.
  - discriminate.
  - discriminate.
  - discriminate.
  - intros _. simpl. auto.
  - discriminate.
  - exists params, cn, mn. split; [exact E|]. split; assumption.
Defined.

(** ** More about the refresh and the tree build *)

Section RefreshMore.
Context `{env : Env} {Node : Type} `{tree : !pathtree.Ops Node}.

(** A refresh that succeeds takes nothing from the router it starts from but
    the path of the routes file: from any router with that path it gives the
    same router, so a second refresh in the same world changes nothing. *)
Theorem refresh_forgets_previous_state (fuel : nat) (router router' : Router Node)
    (log : list LogLine) :
  Router_Refresh fuel router = (Done (router', None), log) ->
  (forall router0 : Router Node,
      path router0 = path router ->
      Router_Refresh fuel router0 = (Done (router', None), log))
  /\ Router_Refresh fuel router' = (Done (router', None), log).
Proof.
  intros H.
  assert (Hany : forall router0 : Router Node,
             path router0 = path router ->
             Router_Refresh fuel router0 = (Done (router', None), log)).
  { intros router0 Hp. unfold Router_Refresh in *. rewrite Hp. mfold.
    binv H. destruct a as [routes [e|]]; [unfold ret in H; discriminate|].
    rewrite E, bind_logged.
    unfold Router_updateTree in *. mfold. cbn [Routes path] in *. rewrite ?Hp.
    binv H. destruct a as [t err]. unfold ret in H. injection H as <- -> <-.
    rewrite E0, bind_logged. unfold logged, ret. simpl. subst. reflexivity. }
  split; [exact Hany|]. apply Hany.
  unfold Router_Refresh in H. mfold. binv H.
  destruct a as [routes [e|]]; [unfold ret in H; injection H as <- _; reflexivity|].
  unfold Router_updateTree in H. mfold. binv H. destruct a as [t err].
  unfold ret in H. injection H as <- _. reflexivity.
Qed.

(** A tree build that fails reports one insertion: the error carries the
    message of the tree and the routes file of the route whose key was
    refused, its own key or, for a GET route, the HEAD key, and the tree is
    left as that insertion left it. *)
Theorem build_error_names_route (routes : list Route) (t t' : Node) (e : Error)
    (log : list LogLine) :
  addRoutes routes t = (Done (t', Some e), log) ->
  exists route key t0,
    In route routes /\ In key (treeKeys route)
    /\ pathtree.Add key route t0 = Done (t', Some (Description e))
    /\ Title e = "Route validation error"
    /\ ErrPath e = routesPath route
    /\ ErrLine e = 0%Z.
Proof.
  revert t log. induction routes as [|route routes IH]; intros t log.
  - simpl. unfold ret. discriminate.
  - cbn [addRoutes]. mfold. unfold liftO. intros H.
    destruct (pathtree.Add (TreePath route) route t) as [[t1 [msg|]]| |] eqn:E1;
      [| |discriminate|discriminate].
    + rewrite bind_done_nil in H. mred.
      rewrite bind_ret in H.
      destruct (routeError_plain msg (routesPath route) "" 0)
        as (e0 & l0 & Ee & Ht & Hd & Hp & Hl).
      rewrite Ee, bind_logged in H. unfold logged, ret in H. simpl in H.
      injection H as <- <- _.
      exists route, (TreePath route), t. rewrite Hd.
      repeat split; try assumption; left; reflexivity.
    + rewrite bind_done_nil in H.
      destruct (String.eqb (Method route) "GET") eqn:EG.
      * destruct (pathtree.Add (treePath "HEAD" (Path route)) route t1)
          as [[t2 [msg|]]| |] eqn:E2; [| |discriminate|discriminate].
        -- rewrite bind_done_nil in H.
           destruct (routeError_plain msg (routesPath route) "" 0)
             as (e0 & l0 & Ee & Ht & Hd & Hp & Hl).
           rewrite Ee, bind_logged in H. unfold logged, ret in H. simpl in H.
           injection H as <- <- _.
           exists route, (treePath "HEAD" (Path route)), t1. rewrite Hd.
           repeat split; try assumption; [left; reflexivity|].
           unfold treeKeys. rewrite EG. right. left. reflexivity.
        -- rewrite bind_done_nil in H.
           destruct (IH _ _ H) as (r & key & t0 & Hin & Hk & Ha & Hrest).
           exists r, key, t0. split; [right; assumption|]. auto.
      * rewrite bind_ret in H.
        destruct (IH _ _ H) as (r & key & t0 & Hin & Hk & Ha & Hrest).
        exists r, key, t0. split; [right; assumption|]. auto.
Qed.

End RefreshMore.

Lemma refresh_forgets_previous_state_witness :
  Router_Refresh (env := envOf goodDoc) 1 (routerOf goodDoc)
  = (Done (routerOf goodDoc, None), []).
Proof.
  apply (refresh_forgets_previous_state (env := envOf goodDoc) 1 (NewRouter routesFile)).
  vm_compute. reflexivity.
Defined.

Lemma build_error_names_route_witness :
  exists t' e log route key t0,
    addRoutes (env := envOf []) (Routes (routerOf goodDoc) ++ Routes (routerOf goodDoc))
              SpecTree.New
    = (Done (t', Some e), log)
    /\ In route (Routes (routerOf goodDoc) ++ Routes (routerOf goodDoc))
    /\ In key (treeKeys route)
    /\ SpecTree.Add key route t0 = Done (t', Some (Description e))
    /\ ErrPath e = routesPath route.
Proof.
  eexists _, _, _.
  match goal with
  | |- exists route key t0, ?P = (Done (?t', Some ?e), ?l) /\ _ =>
      assert (H : P = (Done (t', Some e), l)) by (vm_compute; reflexivity)
  end.
  destruct (build_error_names_route (env := envOf []) _ _ _ _ _ H)
    as (route & key & t0 & Hin & Hk & Ha & _ & Hp & _).
  exists route, key, t0. split; [exact H|]. auto.
Defined.

(** ** The filter *)

Lemma logged_logged {A} (l1 l2 : list LogLine) (m : M A) :
  logged l1 (logged l2 m) = logged (l1 ++ l2) m.
Proof. unfold logged. simpl. rewrite app_assoc. reflexivity. Qed.

Lemma logged_nil {A} (m : M A) : logged [] m = m.
Proof. destruct m. reflexivity. Qed.

Lemma bindFixed_spec {Result} (action : string) (values : list string) :
  forall (i : nat) (c : Controller Result),
    i <= length (MethodArgs c) ->
    exists c',
      bindFixed action i values c
      = (Done c', surplusWarning action (drop i (MethodArgs c)) values)
      /\ cRequest c' = cRequest c /\ cResult c' = cResult c
      /\ ParamsRoute c' = ParamsRoute c /\ MethodArgs c' = MethodArgs c
      /\ (values = [] -> ParamsFixed c' = ParamsFixed c)
      /\ (values <> [] \/ ParamsFixed c <> None -> ParamsFixed c' <> None)
      /\ (forall k arg value,
             MethodArgs c !! (i + k) = Some arg -> values !! k = Some value ->
             (forall j, k < j -> j < length values -> MethodArgs c !! (i + j) <> Some arg) ->
             fixedOf c' !! arg = Some [value])
      /\ (forall name,
             (forall k, k < length values -> MethodArgs c !! (i + k) <> Some name) ->
             fixedOf c' !! name = fixedOf c !! name).
Proof.
  induction values as [|value values IH]; intros i c Hi.
  - exists c. unfold surplusWarning. rewrite drop_nil. cbn [bindFixed].
    split; [reflexivity|]. do 5 (split; [reflexivity|]).
    split; [intros [H|H]; congruence|]. split; [|reflexivity].
    intros k arg value _ H. destruct k; discriminate.
  - cbn [bindFixed]. cbn [MethodArgs setParamsFixed ParamsFixed default].
    fold (fixedOf c).
    destruct (MethodArgs c !! i) as [arg|] eqn:Ha.
    + set (c1 := setParamsFixed (setParamsFixed c (fixedOf c)) (<[arg := [value]]> (fixedOf c))).
      assert (Hlt : i < length (MethodArgs c)) by (eapply lookup_lt_Some; exact Ha).
      destruct (IH (S i) c1) as (c' & E & Hq & Hr & Hp & Hm & _ & Hsome & Hset & Hother);
        [simpl; lia|].
      cbn [MethodArgs c1 setParamsFixed] in *.
      exists c'. split.
      { transitivity (bindFixed action (S i) values c1); [reflexivity|].
        rewrite E. f_equal. unfold surplusWarning.
        rewrite !length_drop.
        replace (length (MethodArgs c) - i) with (S (length (MethodArgs c) - S i)) by lia.
        reflexivity. }
      split; [exact Hq|]. split; [exact Hr|]. split; [exact Hp|]. split; [exact Hm|].
      split; [discriminate|].
      assert (Hc1 : fixedOf c1 = <[arg := [value]]> (fixedOf c)) by reflexivity.
      split; [|split].
      * intros _. apply Hsome. right. discriminate.
      * intros [|k] a v Hk Hv Hlater.
        -- rewrite Nat.add_0_r in Hk. rewrite Ha in Hk. injection Hk as <-.
           simpl in Hv. injection Hv as <-.
           rewrite Hother; [rewrite Hc1; apply lookup_insert_eq|].
           intros k Hk. replace (S i + k) with (i + S k) by lia.
           apply Hlater; simpl; lia.
        -- apply (Hset k a v).
           ++ replace (S i + k) with (i + S k) by lia. exact Hk.
           ++ exact Hv.
           ++ intros j Hj Hjl. replace (S i + j) with (i + S j) by lia.
              apply Hlater; simpl; lia.
      * intros name Hn. rewrite Hother.
        -- rewrite Hc1. apply lookup_insert_ne. intros ->.
           apply (Hn 0); [simpl; lia|]. rewrite Nat.add_0_r. exact Ha.
        -- intros k Hk. replace (S i + k) with (i + S k) by lia. apply Hn. simpl. lia.
    + apply lookup_ge_None in Ha.
      exists (setParamsFixed c (fixedOf c)). split.
      { unfold surplusWarning. rewrite length_drop.
        replace (length (MethodArgs c) - i) with 0 by lia.
        unfold mbind, M_bind. rewrite bind_log. reflexivity. }
      do 4 (split; [reflexivity|]).
      split; [discriminate|]. split; [discriminate|]. split; [|reflexivity].
      intros k a v Hk. apply lookup_lt_Some in Hk. lia.
Qed.

Lemma fillParams_total (ws : list string) (exps : list string) :
  forall (i : nat) (acc : gmap string (list string)),
    i + length exps <= length ws ->
    exists params, fillParams ws i exps acc = ret params.
Proof.
  induction exps as [|v exps IH]; intros i acc Hlen.
  - exists acc. reflexivity.
  - simpl in Hlen. cbn [fillParams].
    destruct (ws !! i) as [name|] eqn:Hi.
    + apply IH. lia.
    + apply lookup_ge_None in Hi. lia.
Qed.

Lemma routeLeaf_action (l : Leaf) (exps : list string) (rm : RouteMatch) (log : list LogLine) :
  routeLeaf l exps = (Done (Some rm), log) ->
  rmAction rm = "404" \/ rmAction rm = "".
Proof.
  unfold routeLeaf. mfold. intros H. binv H.
  destruct (String.eqb (Action (Value l)) "404").
  - unfold ret in H. injection H as <- _. left. reflexivity.
  - binv H. binv H. unfold ret in H. injection H as <- _. right. reflexivity.
Qed.

Section FilterFacts.
Context `{env : Env} {Node : Type} `{tree : !pathtree.Ops Node}.
Context {Result Filter : Type} `{fw : !Framework Result Filter}.

(** A request that finds no leaf, or a leaf whose route has the action 404
    and names for all captured values, is answered by the not-found result
    set on the controller, whose parameters stay as they were: no filter of
    the chain is run, so an empty chain is no error here. *)
Theorem filter_not_found_stops_chain (router : Router Node) (c : Controller Result)
    (fc : list Filter) (leaf : option Leaf) (exps : list string) :
  pathtree.Find (treePath (ReqMethod (cRequest c)) (URLPath (cRequest c))) (Tree router)
  = (leaf, exps) ->
  match leaf with
  | None => True
  | Some l => Action (Value l) = "404" /\ length exps <= length (Wildcards l)
  end ->
  RouterFilter router c fc
  = ret (setResult c (Controller_NotFound c
           match leaf with
           | None => ("No matching route found: " ++ RequestURI (cRequest c))%string
           | Some _ => "(intentionally)"
           end)).
Proof.
  intros HF Hl. unfold RouterFilter, Router_Route. rewrite HF. mfold.
  destruct leaf as [l|].
  - destruct Hl as [H404 Hlen].
    destruct (fillParams_total (Wildcards l) exps 0 ∅) as [params E]; [simpl; lia|].
    unfold routeLeaf. mfold. rewrite E, bind_ret.
    apply String.eqb_eq in H404. rewrite H404, bind_ret. reflexivity.
  - rewrite bind_ret. reflexivity.
Qed.

(** A request whose match is not the explicit 404 and whose action the
    framework accepts goes on to the chain with the captured parameters as
    its route parameters and each fixed parameter set, alone, under the name
    of the argument at its position, the last one winning for a name that
    comes twice; other names keep their fixed values.  The first fixed
    parameter beyond the arguments is logged once, in a line that has no
    action name in it, and the ones after it are dropped.  With an empty chain
    the call of the next filter panics. *)
Theorem filter_binds_fixed_params (router : Router Node) (c c1 : Controller Result)
    (fc : list Filter) (rm : RouteMatch) (log0 : list LogLine) :
  Router_Route router (ReqMethod (cRequest c)) (URLPath (cRequest c))
  = (Done (Some rm), log0) ->
  rmAction rm <> "404" ->
  Controller_SetAction c (rmControllerName rm) (rmMethodName rm) = (c1, None) ->
  exists c2,
    RouterFilter router c fc
    = logged (log0 ++ surplusWarning "" (MethodArgs c1) (rmFixedParams rm)) (callNext c2 fc)
    /\ callNext c2 [] = panic IndexOutOfRange
    /\ cRequest c2 = cRequest c1 /\ cResult c2 = cResult c1 /\ MethodArgs c2 = MethodArgs c1
    /\ ParamsRoute c2 = rmParams rm
    /\ (forall i arg value,
           MethodArgs c1 !! i = Some arg -> rmFixedParams rm !! i = Some value ->
           (forall j, i < j -> j < length (rmFixedParams rm) ->
                      MethodArgs c1 !! j <> Some arg) ->
           fixedOf c2 !! arg = Some [value])
    /\ (forall name,
           (forall i, i < length (rmFixedParams rm) -> MethodArgs c1 !! i <> Some name) ->
           fixedOf c2 !! name = fixedOf c1 !! name)
    /\ (rmFixedParams rm = [] -> ParamsFixed c2 = ParamsFixed c1).
Proof.
  intros HR H404 HS.
  assert (Ha : rmAction rm = "").
  { unfold Router_Route in HR.
    destruct (pathtree.Find _ _) as [[l|] exps]; [|unfold ret in HR; discriminate].
    destruct (routeLeaf_action _ _ _ _ HR); [contradiction|assumption]. }
  destruct (bindFixed_spec (rmAction rm) (rmFixedParams rm) 0
                           (setParamsRoute c1 (rmParams rm)))
    as (c2 & E & Hq & Hr & Hp & Hm & Hnil & _ & Hset & Hother); [lia|].
  cbn [setParamsRoute cRequest cResult ParamsRoute MethodArgs ParamsFixed] in *.
  rewrite drop_0, Ha in E.
  exists c2. split; [|split; [reflexivity|]].
  - unfold RouterFilter. mfold. rewrite HR, bind_logged.
    apply String.eqb_neq in H404. rewrite H404, HS, Ha.
    rewrite <- Ha at 1. rewrite Ha.
    transitivity (logged log0
                    (bind (fun c => callNext c fc)
                          (bindFixed "" 0 (rmFixedParams rm)
                                     (setParamsRoute c1 (rmParams rm))))); [reflexivity|].
    rewrite E, bind_logged, logged_logged. reflexivity.
  - split; [exact Hq|]. split; [exact Hr|]. split; [exact Hm|]. split; [exact Hp|].
    split; [|split].
    + intros i arg value Hi Hv Hlater. apply (Hset i arg value); assumption.
    + intros name Hn. rewrite Hother; [reflexivity|]. exact Hn.
    + exact Hnil.
Qed.

End FilterFacts.

Lemma filter_not_found_stops_chain_witness :
  RouterFilter (env := envOf goodDoc) (fw := exampleFramework []) (routerOf goodDoc)
               (freshController "GET" "/old") []
  = ret (setResult (freshController "GET" "/old") "(intentionally)").
Proof.
  assert (HF : exists l exps,
             SpecTree.Find (treePath "GET" "/old") (Tree (routerOf goodDoc)) = (Some l, exps)
             /\ Action (Value l) = "404" /\ length exps <= length (Wildcards l)).
  { eexists _, _. split; [vm_compute; reflexivity|]. split; [reflexivity|simpl; lia]. }
  destruct HF as (l & exps & HF & Hl).
  exact (filter_not_found_stops_chain (env := envOf goodDoc) (fw := exampleFramework [])
           (routerOf goodDoc) (freshController "GET" "/old") [] (Some l) exps HF Hl).
Defined.

Lemma filter_binds_fixed_params_witness :
  exists c2,
    RouterFilter (env := envOf fixedDoc) (fw := exampleFramework ["format"])
                 (routerOf fixedDoc) (freshController "GET" "/users/42") [tt]
    = (Done c2, [(WARN, ("Too many parameters to  trying to add json" ++ newline)%string)])
    /\ ParamsRoute c2 !! "id" = Some ["42"]
    /\ fixedOf c2 !! "format" = Some ["full"].
Proof.
  assert (HR : exists rm,
             Router_Route (routerOf fixedDoc) "GET" "/users/42" = (Done (Some rm), [])
             /\ rmAction rm <> "404" /\ rmFixedParams rm = ["full"; "json"]
             /\ rmParams rm !! "id" = Some ["42"]).
  { eexists. split; [vm_compute; reflexivity|]. split; [discriminate|].
    split; [reflexivity|]. vm_compute. reflexivity. }
  destruct HR as (rm & HR & H404 & Hfix & Hid).
  destruct (filter_binds_fixed_params (env := envOf fixedDoc) (fw := exampleFramework ["format"])
              (routerOf fixedDoc) (freshController "GET" "/users/42") _ [tt] rm []
              HR H404 eq_refl)
    as (c2 & E & _ & _ & _ & _ & Hp & Hset & _).
  exists c2. split; [|split].
  - rewrite E. cbn [MethodArgs]. rewrite Hfix. reflexivity.
  - rewrite Hp. exact Hid.
  - apply (Hset 0 "format" "full"); [reflexivity|rewrite Hfix; reflexivity|].
    intros j Hj _. destruct j; [lia|]. discriminate.
Defined.
